(** * colortty: color scheme parsing, rendering and catalog download

    A shallow embedding of [src/color.rs] and [src/provider.rs] of colortty.
    A Rust [&str] is modelled as a [string] of the Standard Library, read as
    the sequence of its UTF-8 bytes (one [ascii] per byte).  A [u8] is a [Z]
    in [0, 255].  A Rust function that may panic returns an [outcome]. *)

From Stdlib Require Import ZArith Lia List Bool.
From Stdlib Require Import Strings.String Strings.Ascii.
Import ListNotations.

Open Scope string_scope.
Open Scope Z_scope.

(** ** Errors and outcomes *)

(** The XML values of the [xml] crate (RustyXML) used by [from_iterm]:
    an element has a name, an optional namespace and children. *)
Inductive Xml : Type :=
| ElementNode (e : Element)
| CharacterNode (text : string)
| CDATANode (text : string)
| CommentNode (text : string)
| PINode (text : string)
with Element : Type :=
| Elem (name : string) (ns : option string) (children : list Xml).

Definition el_name (e : Element) : string := let 'Elem n _ _ := e in n.
Definition el_ns (e : Element) : option string := let 'Elem _ ns _ := e in ns.
Definition el_children (e : Element) : list Xml := let 'Elem _ _ cs := e in cs.

(** [ParseError] of color.rs.  The errors of the standard library parsers
    are wrapped with [.context(ParseError::ParseInt)] and the like, so the
    error seen by the caller is the [ParseError]. *)
Inductive ParseError : Type :=
| ParseInt
| ParseFloat
| InvalidColorFormat (s : string)
| InvalidLineFormat (s : string)
| UnknownColorName (s : string)
| XMLParse
| NoRootDict
| NotCharacterNode (x : Xml)
| UnknownColorComponent (s : string).

(** The errors of provider.rs (HTTP, JSON, file system), by kind. *)
Inductive ProviderError : Type :=
| NoCacheDir
| CreateDirFailed
| HttpFailed (url : string)
| ListParseFailed
| WriteFailed (name : string).

(** Result of a Rust computation: a value, an [Err], or a panic. *)
Inductive outcome (E A : Type) : Type :=
| Ok (a : A)
| Err (e : E)
| Panic.
Arguments Ok {E A} a.
Arguments Err {E A} e.
Arguments Panic {E A}.

(** The [?] operator. *)
Definition bind {E A B} (m : outcome E A) (k : A -> outcome E B) : outcome E B :=
  match m with
  | Ok a => k a
  | Err e => Err e
  | Panic => Panic
  end.

Notation "x <- m ;; k" := (bind m (fun x => k))
  (at level 61, m at next level, right associativity).

(** ** Bytes and string slices *)

Definition byte_of (c : ascii) : Z := Z.of_N (N_of_ascii c).

(** A byte that does not start a UTF-8 code point (0b10xxxxxx). *)
Definition is_continuation (c : ascii) : bool :=
  (128 <=? byte_of c) && (byte_of c <? 192).

(** [str::is_char_boundary]. *)
Definition is_char_boundary (s : string) (i : nat) : bool :=
  match get i s with
  | None => Nat.eqb i (String.length s)
  | Some c => negb (is_continuation c)
  end.

(** [&s[a..b]]: panics unless [a <= b <= len] and both are char boundaries. *)
Definition slice (s : string) (a b : nat) : outcome ParseError string :=
  if Nat.leb a b && Nat.leb b (String.length s)
     && is_char_boundary s a && is_char_boundary s b
  then Ok (substring a (b - a) s)
  else Panic.

(** [s] starts with [pat]. *)
Fixpoint starts (pat s : string) : bool :=
  match pat, s with
  | EmptyString, _ => true
  | String a pat', String b s' => Ascii.eqb a b && starts pat' s'
  | String _ _, EmptyString => false
  end.

(** [str::split] on a single character. *)
Fixpoint split_char (sep : ascii) (s : string) : list string :=
  match s with
  | EmptyString => [EmptyString]
  | String c rest =>
      if Ascii.eqb c sep then EmptyString :: split_char sep rest
      else match split_char sep rest with
           | [] => [String c EmptyString]
           | w :: ws => String c w :: ws
           end
  end.

Definition nl : ascii := "010"%char.
Definition cr : ascii := "013"%char.

Definition strip_cr (s : string) : string :=
  match get (String.length s - 1) s with
  | Some c => if (0 <? String.length s)%nat && Ascii.eqb c cr
              then substring 0 (String.length s - 1) s else s
  | None => s
  end.

(** [str::lines], i.e. [split_inclusive('\n')] with the line ending
    removed: every piece but the last one of [split('\n')] ended in
    ['\n'] and loses one trailing ['\r'] ([\r\n]); the last piece is kept
    as it is (a bare ['\r'] included) unless it is empty. *)
Definition lines (s : string) : list string :=
  match rev (split_char nl s) with
  | [] => []
  | last :: rinit =>
      (map strip_cr (rev rinit)
       ++ (if String.eqb last EmptyString then [] else [last]))%list
  end.

(** ** Integer parsing: [u8::from_str_radix] and [str::parse::<u8>] *)

(** [char::to_digit]. *)
Definition to_digit (radix : Z) (c : ascii) : option Z :=
  let b := byte_of c in
  let d := if (48 <=? b) && (b <=? 57) then b - 48
           else if (97 <=? b) && (b <=? 122) then b - 97 + 10
           else if (65 <=? b) && (b <=? 90) then b - 65 + 10
           else 99 in
  if d <? radix then Some d else None.

(** The digit loop with [checked_mul] and [checked_add] on [u8]. *)
Fixpoint u8_digits (radix acc : Z) (s : string) : option Z :=
  match s with
  | EmptyString => Some acc
  | String c rest =>
      match to_digit radix c with
      | None => None
      | Some d =>
          let m := acc * radix in
          if 255 <? m then None
          else if 255 <? m + d then None
          else u8_digits radix (m + d) rest
      end
  end.

(** [u8::from_str_radix]: empty input fails, a lone sign fails, a leading
    ['+'] is skipped, a leading ['-'] is a digit error for an unsigned type. *)
Definition from_str_radix_u8 (s : string) (radix : Z) : option Z :=
  match s with
  | EmptyString => None
  | String c EmptyString =>
      if Ascii.eqb c "+" || Ascii.eqb c "-" then None else u8_digits radix 0 s
  | String c rest =>
      if Ascii.eqb c "+" then u8_digits radix 0 rest else u8_digits radix 0 s
  end.

(** [fn parse_int(s: &str) -> Result<u8>]. *)
Definition parse_int (s : string) : outcome ParseError Z :=
  match from_str_radix_u8 s 10 with
  | Some v => Ok v
  | None => Err ParseInt
  end.

(** [fn parse_hex(s: &str) -> Result<u8>]. *)
Definition parse_hex (s : string) : outcome ParseError Z :=
  match from_str_radix_u8 s 16 with
  | Some v => Ok v
  | None => Err ParseInt
  end.

(** ** Color *)

Record Color : Type := mkColor { red : Z; green : Z; blue : Z }.

Definition color_default : Color := mkColor 0 0 0.

(** [Color::from_mintty_color]. *)
Definition from_mintty_color (s : string) : outcome ParseError Color :=
  let rgb := split_char "," s in
  if negb (Nat.eqb (List.length rgb) 3) then Err (InvalidColorFormat s)
  else
    r <- parse_int (nth 0 rgb EmptyString) ;;
    g <- parse_int (nth 1 rgb EmptyString) ;;
    b <- parse_int (nth 2 rgb EmptyString) ;;
    Ok (mkColor r g b).

(** [Color::from_gogh_color]. *)
Definition from_gogh_color (s : string) : outcome ParseError Color :=
  p1 <- slice s 1 3 ;; r <- parse_hex p1 ;;
  p2 <- slice s 3 5 ;; g <- parse_hex p2 ;;
  p3 <- slice s 5 7 ;; b <- parse_hex p3 ;;
  Ok (mkColor r g b).

(** The [LowerHex] rendering of an integer: minimal lowercase digits. *)
Definition hex_digit (d : Z) : ascii :=
  if d <? 10 then ascii_of_N (Z.to_N (48 + d)) else ascii_of_N (Z.to_N (87 + d)).

Fixpoint lower_hex_aux (fuel : nat) (n : Z) (acc : string) : string :=
  match fuel with
  | O => acc
  | S f =>
      let acc' := String (hex_digit (n mod 16)) acc in
      if n <? 16 then acc' else lower_hex_aux f (n / 16) acc'
  end.

Definition lower_hex (n : Z) : string := lower_hex_aux 8 n EmptyString.

(** Zero padding on the left to a width ([{:>02x}]: the [0] flag pads
    numbers with zeros after the sign). *)
Definition pad_zero (width : nat) (s : string) : string :=
  String.append (String.concat "" (repeat "0" (width - String.length s))) s.

(** [Color::to_hex]: [format!("0x{:>02x}{:>02x}{:>02x}", ...)]. *)
Definition to_hex (c : Color) : string :=
  "0x" ++ pad_zero 2 (lower_hex (red c)) ++ pad_zero 2 (lower_hex (green c))
       ++ pad_zero 2 (lower_hex (blue c)).

(** ** Color schemes *)

Module Scheme.

(** [struct ColorScheme]. *)
Record ColorScheme : Type := mkScheme {
  foreground : Color;
  background : Color;
  cursor_text : option Color;
  cursor : option Color;
  black : Color; red : Color; green : Color; yellow : Color;
  blue : Color; magenta : Color; cyan : Color; white : Color;
  bright_black : Color; bright_red : Color; bright_green : Color;
  bright_yellow : Color; bright_blue : Color; bright_magenta : Color;
  bright_cyan : Color; bright_white : Color }.

(** [ColorScheme::default()]. *)
Definition default : ColorScheme :=
  mkScheme color_default color_default None None
    color_default color_default color_default color_default
    color_default color_default color_default color_default
    color_default color_default color_default color_default
    color_default color_default color_default color_default.

(** The twenty fields, as the targets of an assignment [scheme.f = ...]. *)
Inductive Slot : Type :=

  Foreground | Background | CursorText | Cursor | Black | Red | Green | Yellow | Blue | Magenta
  | Cyan | White | BrightBlack | BrightRed | BrightGreen | BrightYellow | BrightBlue | BrightMagenta | BrightCyan | BrightWhite.

(** [scheme.<slot> = color] ([Some color] for the two optional slots). *)
Definition set_slot (sl : Slot) (c : Color) (s : ColorScheme) : ColorScheme :=
  match sl with
  | Foreground => mkScheme c (background s) (cursor_text s) (cursor s) (black s) (red s) (green s) (yellow s) (blue s) (magenta s) (cyan s) (white s) (bright_black s) (bright_red s) (bright_green s) (bright_yellow s) (bright_blue s) (bright_magenta s) (bright_cyan s) (bright_white s)
  | Background => mkScheme (foreground s) c (cursor_text s) (cursor s) (black s) (red s) (green s) (yellow s) (blue s) (magenta s) (cyan s) (white s) (bright_black s) (bright_red s) (bright_green s) (bright_yellow s) (bright_blue s) (bright_magenta s) (bright_cyan s) (bright_white s)
  | CursorText => mkScheme (foreground s) (background s) (Some c) (cursor s) (black s) (red s) (green s) (yellow s) (blue s) (magenta s) (cyan s) (white s) (bright_black s) (bright_red s) (bright_green s) (bright_yellow s) (bright_blue s) (bright_magenta s) (bright_cyan s) (bright_white s)
  | Cursor => mkScheme (foreground s) (background s) (cursor_text s) (Some c) (black s) (red s) (green s) (yellow s) (blue s) (magenta s) (cyan s) (white s) (bright_black s) (bright_red s) (bright_green s) (bright_yellow s) (bright_blue s) (bright_magenta s) (bright_cyan s) (bright_white s)
  | Black => mkScheme (foreground s) (background s) (cursor_text s) (cursor s) c (red s) (green s) (yellow s) (blue s) (magenta s) (cyan s) (white s) (bright_black s) (bright_red s) (bright_green s) (bright_yellow s) (bright_blue s) (bright_magenta s) (bright_cyan s) (bright_white s)
  | Red => mkScheme (foreground s) (background s) (cursor_text s) (cursor s) (black s) c (green s) (yellow s) (blue s) (magenta s) (cyan s) (white s) (bright_black s) (bright_red s) (bright_green s) (bright_yellow s) (bright_blue s) (bright_magenta s) (bright_cyan s) (bright_white s)
  | Green => mkScheme (foreground s) (background s) (cursor_text s) (cursor s) (black s) (red s) c (yellow s) (blue s) (magenta s) (cyan s) (white s) (bright_black s) (bright_red s) (bright_green s) (bright_yellow s) (bright_blue s) (bright_magenta s) (bright_cyan s) (bright_white s)
  | Yellow => mkScheme (foreground s) (background s) (cursor_text s) (cursor s) (black s) (red s) (green s) c (blue s) (magenta s) (cyan s) (white s) (bright_black s) (bright_red s) (bright_green s) (bright_yellow s) (bright_blue s) (bright_magenta s) (bright_cyan s) (bright_white s)
  | Blue => mkScheme (foreground s) (background s) (cursor_text s) (cursor s) (black s) (red s) (green s) (yellow s) c (magenta s) (cyan s) (white s) (bright_black s) (bright_red s) (bright_green s) (bright_yellow s) (bright_blue s) (bright_magenta s) (bright_cyan s) (bright_white s)
  | Magenta => mkScheme (foreground s) (background s) (cursor_text s) (cursor s) (black s) (red s) (green s) (yellow s) (blue s) c (cyan s) (white s) (bright_black s) (bright_red s) (bright_green s) (bright_yellow s) (bright_blue s) (bright_magenta s) (bright_cyan s) (bright_white s)
  | Cyan => mkScheme (foreground s) (background s) (cursor_text s) (cursor s) (black s) (red s) (green s) (yellow s) (blue s) (magenta s) c (white s) (bright_black s) (bright_red s) (bright_green s) (bright_yellow s) (bright_blue s) (bright_magenta s) (bright_cyan s) (bright_white s)
  | White => mkScheme (foreground s) (background s) (cursor_text s) (cursor s) (black s) (red s) (green s) (yellow s) (blue s) (magenta s) (cyan s) c (bright_black s) (bright_red s) (bright_green s) (bright_yellow s) (bright_blue s) (bright_magenta s) (bright_cyan s) (bright_white s)
  | BrightBlack => mkScheme (foreground s) (background s) (cursor_text s) (cursor s) (black s) (red s) (green s) (yellow s) (blue s) (magenta s) (cyan s) (white s) c (bright_red s) (bright_green s) (bright_yellow s) (bright_blue s) (bright_magenta s) (bright_cyan s) (bright_white s)
  | BrightRed => mkScheme (foreground s) (background s) (cursor_text s) (cursor s) (black s) (red s) (green s) (yellow s) (blue s) (magenta s) (cyan s) (white s) (bright_black s) c (bright_green s) (bright_yellow s) (bright_blue s) (bright_magenta s) (bright_cyan s) (bright_white s)
  | BrightGreen => mkScheme (foreground s) (background s) (cursor_text s) (cursor s) (black s) (red s) (green s) (yellow s) (blue s) (magenta s) (cyan s) (white s) (bright_black s) (bright_red s) c (bright_yellow s) (bright_blue s) (bright_magenta s) (bright_cyan s) (bright_white s)
  | BrightYellow => mkScheme (foreground s) (background s) (cursor_text s) (cursor s) (black s) (red s) (green s) (yellow s) (blue s) (magenta s) (cyan s) (white s) (bright_black s) (bright_red s) (bright_green s) c (bright_blue s) (bright_magenta s) (bright_cyan s) (bright_white s)
  | BrightBlue => mkScheme (foreground s) (background s) (cursor_text s) (cursor s) (black s) (red s) (green s) (yellow s) (blue s) (magenta s) (cyan s) (white s) (bright_black s) (bright_red s) (bright_green s) (bright_yellow s) c (bright_magenta s) (bright_cyan s) (bright_white s)
  | BrightMagenta => mkScheme (foreground s) (background s) (cursor_text s) (cursor s) (black s) (red s) (green s) (yellow s) (blue s) (magenta s) (cyan s) (white s) (bright_black s) (bright_red s) (bright_green s) (bright_yellow s) (bright_blue s) c (bright_cyan s) (bright_white s)
  | BrightCyan => mkScheme (foreground s) (background s) (cursor_text s) (cursor s) (black s) (red s) (green s) (yellow s) (blue s) (magenta s) (cyan s) (white s) (bright_black s) (bright_red s) (bright_green s) (bright_yellow s) (bright_blue s) (bright_magenta s) c (bright_white s)
  | BrightWhite => mkScheme (foreground s) (background s) (cursor_text s) (cursor s) (black s) (red s) (green s) (yellow s) (blue s) (magenta s) (cyan s) (white s) (bright_black s) (bright_red s) (bright_green s) (bright_yellow s) (bright_blue s) (bright_magenta s) (bright_cyan s) c
  end.

End Scheme.

Abbreviation ColorScheme := Scheme.ColorScheme.

(** ** [ColorScheme::from_minttyrc] *)

(** The [match name { ... }] of [from_minttyrc]. *)
Definition mintty_slot (name : string) : option Scheme.Slot :=
  if String.eqb name "ForegroundColour" then Some Scheme.Foreground
  else if String.eqb name "BackgroundColour" then Some Scheme.Background
  else if String.eqb name "Black" then Some Scheme.Black
  else if String.eqb name "Red" then Some Scheme.Red
  else if String.eqb name "Green" then Some Scheme.Green
  else if String.eqb name "Yellow" then Some Scheme.Yellow
  else if String.eqb name "Blue" then Some Scheme.Blue
  else if String.eqb name "Magenta" then Some Scheme.Magenta
  else if String.eqb name "Cyan" then Some Scheme.Cyan
  else if String.eqb name "White" then Some Scheme.White
  else if String.eqb name "BoldRed" then Some Scheme.BrightRed
  else if String.eqb name "BoldBlack" then Some Scheme.BrightBlack
  else if String.eqb name "BoldGreen" then Some Scheme.BrightGreen
  else if String.eqb name "BoldYellow" then Some Scheme.BrightYellow
  else if String.eqb name "BoldBlue" then Some Scheme.BrightBlue
  else if String.eqb name "BoldMagenta" then Some Scheme.BrightMagenta
  else if String.eqb name "BoldCyan" then Some Scheme.BrightCyan
  else if String.eqb name "BoldWhite" then Some Scheme.BrightWhite
  else None.

(** The loop [for line in content.lines()] of [from_minttyrc]. *)
Fixpoint minttyrc_lines (scheme : ColorScheme) (ls : list string)
  : outcome ParseError ColorScheme :=
  match ls with
  | [] => Ok scheme
  | line :: rest =>
      let components := split_char "=" line in
      if negb (Nat.eqb (List.length components) 2) then Err (InvalidLineFormat line)
      else
        let name := nth 0 components EmptyString in
        color <- from_mintty_color (nth 1 components EmptyString) ;;
        match mintty_slot name with
        | Some sl => minttyrc_lines (Scheme.set_slot sl color scheme) rest
        | None => Err (UnknownColorName name)
        end
  end.

Definition from_minttyrc (content : string) : outcome ParseError ColorScheme :=
  minttyrc_lines Scheme.default (lines content).

(** ** [ColorScheme::from_gogh] *)

Definition dquote : ascii := "034"%char.

(** [[A-Z0-9_]]. *)
Definition is_name_char (c : ascii) : bool :=
  let b := byte_of c in
  ((65 <=? b) && (b <=? 90)) || ((48 <=? b) && (b <=? 57)) || (b =? 95).

(** [[0-9a-fA-F]]. *)
Definition is_hex_char (c : ascii) : bool :=
  let b := byte_of c in
  ((48 <=? b) && (b <=? 57)) || ((97 <=? b) && (b <=? 102)) || ((65 <=? b) && (b <=? 70)).

(** The greedy [([A-Z0-9_]+)]: the longest prefix of name characters. *)
Fixpoint take_name (s : string) : string * string :=
  match s with
  | String c rest =>
      if is_name_char c then let '(n, r) := take_name rest in (String c n, r)
      else (EmptyString, s)
  | EmptyString => (EmptyString, EmptyString)
  end.

(** Matching [export ([A-Z0-9_]+)="(#[0-9a-fA-F]{6})"] at the start of [s].
    The character after the name must be ['='], which is not a name
    character, so the greedy name is the only candidate: no backtracking. *)
Definition match_at (s : string) : option (string * string) :=
  if starts "export " s then
    let '(name, after) := take_name (substring 7 (String.length s - 7) s) in
    if String.eqb name EmptyString then None
    else if starts (String "=" (String dquote (String "#" EmptyString))) after
            && forallb is_hex_char (list_ascii_of_string (substring 3 6 after))
            && Nat.leb 10 (String.length after)
            && match get 9 after with Some c => Ascii.eqb c dquote | None => false end
    then Some (name, substring 2 7 after)
    else None
  else None.

(** [pattern.captures(line)]: the leftmost match, capture groups 1 and 2. *)
Fixpoint captures (s : string) : option (string * string) :=
  match match_at s with
  | Some m => Some m
  | None => match s with
            | EmptyString => None
            | String _ rest => captures rest
            end
  end.

(** The [match name { ... }] of [from_gogh]. *)
Definition gogh_slot (name : string) : option Scheme.Slot :=
  if String.eqb name "FOREGROUND_COLOR" then Some Scheme.Foreground
  else if String.eqb name "BACKGROUND_COLOR" then Some Scheme.Background
  else if String.eqb name "COLOR_01" then Some Scheme.Black
  else if String.eqb name "COLOR_02" then Some Scheme.Red
  else if String.eqb name "COLOR_03" then Some Scheme.Green
  else if String.eqb name "COLOR_04" then Some Scheme.Yellow
  else if String.eqb name "COLOR_05" then Some Scheme.Blue
  else if String.eqb name "COLOR_06" then Some Scheme.Magenta
  else if String.eqb name "COLOR_07" then Some Scheme.Cyan
  else if String.eqb name "COLOR_08" then Some Scheme.White
  else if String.eqb name "COLOR_09" then Some Scheme.BrightBlack
  else if String.eqb name "COLOR_10" then Some Scheme.BrightRed
  else if String.eqb name "COLOR_11" then Some Scheme.BrightGreen
  else if String.eqb name "COLOR_12" then Some Scheme.BrightYellow
  else if String.eqb name "COLOR_13" then Some Scheme.BrightBlue
  else if String.eqb name "COLOR_14" then Some Scheme.BrightMagenta
  else if String.eqb name "COLOR_15" then Some Scheme.BrightCyan
  else if String.eqb name "COLOR_16" then Some Scheme.BrightWhite
  else None.

(** One iteration of the loop of [from_gogh]. *)
Definition gogh_line (scheme : ColorScheme) (line : string)
  : outcome ParseError ColorScheme :=
  match captures line with
  | Some (name, value) =>
      color <- from_gogh_color value ;;
      match gogh_slot name with
      | Some sl => Ok (Scheme.set_slot sl color scheme)
      | None => Ok scheme
      end
  | None => Ok scheme
  end.

Fixpoint gogh_lines (scheme : ColorScheme) (ls : list string)
  : outcome ParseError ColorScheme :=
  match ls with
  | [] => Ok scheme
  | line :: rest => s <- gogh_line scheme line ;; gogh_lines s rest
  end.

Definition from_gogh (content : string) : outcome ParseError ColorScheme :=
  gogh_lines Scheme.default (lines content).

(** ** [ColorScheme::to_toml] *)

Definition NL : string := String nl EmptyString.

(** The [cursor_colors] of [to_toml]. *)
Definition cursor_colors (s : ColorScheme) : string :=
  match Scheme.cursor_text s, Scheme.cursor s with
  | Some cursor_text, Some cursor =>
      NL ++ "# Cursor colors" ++ NL
      ++ "[colors.cursor]" ++ NL
      ++ "text =   '" ++ to_hex cursor_text ++ "'" ++ NL
      ++ "cursor = '" ++ to_hex cursor ++ "'" ++ NL
  | _, _ => EmptyString
  end.

Definition to_toml (s : ColorScheme) : string :=
  NL ++ "# Default colors" ++ NL
  ++ "[colors.primary]" ++ NL
  ++ "background = '" ++ to_hex (Scheme.background s) ++ "'" ++ NL
  ++ "foreground = '" ++ to_hex (Scheme.foreground s) ++ "'" ++ NL
  ++ cursor_colors s ++ NL
  ++ "# Normal colors" ++ NL
  ++ "[colors.normal]" ++ NL
  ++ "black =   '" ++ to_hex (Scheme.black s) ++ "'" ++ NL
  ++ "red =     '" ++ to_hex (Scheme.red s) ++ "'" ++ NL
  ++ "green =   '" ++ to_hex (Scheme.green s) ++ "'" ++ NL
  ++ "yellow =  '" ++ to_hex (Scheme.yellow s) ++ "'" ++ NL
  ++ "blue =    '" ++ to_hex (Scheme.blue s) ++ "'" ++ NL
  ++ "magenta = '" ++ to_hex (Scheme.magenta s) ++ "'" ++ NL
  ++ "cyan =    '" ++ to_hex (Scheme.cyan s) ++ "'" ++ NL
  ++ "white =   '" ++ to_hex (Scheme.white s) ++ "'" ++ NL
  ++ NL
  ++ "# Bright colors" ++ NL
  ++ "[colors.bright]" ++ NL
  ++ "black =   '" ++ to_hex (Scheme.bright_black s) ++ "'" ++ NL
  ++ "red =     '" ++ to_hex (Scheme.bright_red s) ++ "'" ++ NL
  ++ "green =   '" ++ to_hex (Scheme.bright_green s) ++ "'" ++ NL
  ++ "yellow =  '" ++ to_hex (Scheme.bright_yellow s) ++ "'" ++ NL
  ++ "blue =    '" ++ to_hex (Scheme.bright_blue s) ++ "'" ++ NL
  ++ "magenta = '" ++ to_hex (Scheme.bright_magenta s) ++ "'" ++ NL
  ++ "cyan =    '" ++ to_hex (Scheme.bright_cyan s) ++ "'" ++ NL
  ++ "white =   '" ++ to_hex (Scheme.bright_white s) ++ "'" ++ NL.

(** ** Single-precision floats: [str::parse::<f32>], [* 255.0], [as u8] *)

(** An IEEE 754 binary32 value: NaN, a signed infinity, or a signed finite
    value [m * 2^e] with [0 <= m < 2^24] and [e >= -149]. *)
Inductive F32 : Type :=
| F32Nan
| F32Inf (neg : bool)
| F32Fin (neg : bool) (m e : Z).

(** Rounding [a / b] to the nearest integer, ties to even ([a >= 0], [b > 0]). *)
Definition round_half_even (a b : Z) : Z :=
  let q := a / b in
  let r := a mod b in
  if 2 * r <? b then q
  else if b <? 2 * r then q + 1
  else if Z.even q then q else q + 1.

(** [num / den >= 2^k]. *)
Definition ge_pow2 (num den k : Z) : bool :=
  if 0 <=? k then den * 2 ^ k <=? num else den <=? num * 2 ^ (- k).

(** Rounding the positive rational [num / den] to binary32, ties to even:
    [Some (m, e)] with value [m * 2^e], or [None] on overflow. *)
Definition f32_round (num den : Z) : option (Z * Z) :=
  let k0 := Z.log2 num - Z.log2 den in
  let k := if ge_pow2 num den k0 then k0 else k0 - 1 in
  let e := Z.max (k - 23) (-149) in
  let m := if 0 <=? e then round_half_even num (den * 2 ^ e)
           else round_half_even (num * 2 ^ (- e)) den in
  if (0 <? m) && (128 <=? Z.log2 m + e) then None else Some (m, e).

(** A parsed decimal [mant * 10^p] (with at most [ndig] digits in [mant])
    rounded to binary32. *)
Definition decimal_to_f32 (neg : bool) (mant p ndig : Z) : F32 :=
  if mant =? 0 then F32Fin neg 0 0
  else if 50 <? p then F32Inf neg
  else if p + ndig <? -46 then F32Fin neg 0 0
  else
    let '(num, den) := if 0 <=? p then (mant * 10 ^ p, 1) else (mant, 10 ^ (- p)) in
    match f32_round num den with
    | Some (m, e) => F32Fin neg m e
    | None => F32Inf neg
    end.

(** A run of decimal digits appended to [acc]: value, count and rest. *)
Fixpoint dec_digits (s : string) (acc n : Z) : Z * Z * string :=
  match s with
  | String c rest =>
      if (48 <=? byte_of c) && (byte_of c <=? 57)
      then dec_digits rest (acc * 10 + (byte_of c - 48)) (n + 1)
      else (acc, n, s)
  | EmptyString => (acc, n, EmptyString)
  end.

Definition lower_ascii (c : ascii) : ascii :=
  if (65 <=? byte_of c) && (byte_of c <=? 90)
  then ascii_of_N (Z.to_N (byte_of c + 32)) else c.

Definition lowercase (s : string) : string :=
  string_of_list_ascii (map lower_ascii (list_ascii_of_string s)).

Definition split_sign (s : string) : bool * string :=
  match s with
  | String c rest =>
      if Ascii.eqb c "+" then (false, rest)
      else if Ascii.eqb c "-" then (true, rest) else (false, s)
  | EmptyString => (false, EmptyString)
  end.

(** [str::parse::<f32>]: an optional sign, then [inf], [infinity] or [nan]
    (any case), or digits with an optional ['.'] (at least one digit in all)
    and an optional exponent [e]/[E], optional sign, digits; the result is
    the correctly rounded binary32 value. *)
Definition parse_f32 (s : string) : option F32 :=
  let '(neg, body) := split_sign s in
  let lb := lowercase body in
  if String.eqb lb "inf" || String.eqb lb "infinity" then Some (F32Inf neg)
  else if String.eqb lb "nan" then Some F32Nan
  else
    let '(ip, ni, r1) := dec_digits body 0 0 in
    let '(mant, nf, r2) :=
      match r1 with
      | String c r => if Ascii.eqb c "." then dec_digits r ip 0 else (ip, 0, r1)
      | EmptyString => (ip, 0, r1)
      end in
    if ni + nf =? 0 then None
    else match r2 with
         | EmptyString => Some (decimal_to_f32 neg mant (- nf) (ni + nf))
         | String c r3 =>
             if Ascii.eqb c "e" || Ascii.eqb c "E" then
               let '(eneg, r4) := split_sign r3 in
               let '(ev, ne, r5) := dec_digits r4 0 0 in
               if (ne =? 0) || negb (String.eqb r5 EmptyString) then None
               else Some (decimal_to_f32 neg mant ((if eneg then - ev else ev) - nf) (ni + nf))
             else None
         end.

(** [v * 255.0] in binary32. *)
Definition f32_mul_255 (v : F32) : F32 :=
  match v with
  | F32Nan => F32Nan
  | F32Inf neg => F32Inf neg
  | F32Fin neg m e =>
      if m =? 0 then F32Fin neg 0 0
      else match f32_round (255 * m * 2 ^ Z.max e 0) (2 ^ Z.max (- e) 0) with
           | Some (m', e') => F32Fin neg m' e'
           | None => F32Inf neg
           end
  end.

(** [v as u8]: truncation toward zero, saturating at 0 and 255, NaN to 0. *)
Definition f32_as_u8 (v : F32) : Z :=
  match v with
  | F32Nan => 0
  | F32Inf neg => if neg then 0 else 255
  | F32Fin neg m e =>
      if neg then 0
      else Z.min 255 (if 0 <=? e then m * 2 ^ e else m / 2 ^ (- e))
  end.

(** ** [ColorScheme::from_iterm] *)

(** [fn extract_text]: [element.children[0]] panics on an element without
    children. *)
Definition extract_text (element : Element) : outcome ParseError string :=
  match el_children element with
  | [] => Panic
  | CharacterNode text :: _ => Ok text
  | first :: _ => Err (NotCharacterNode first)
  end.

(** [fn extract_real_color]. *)
Definition extract_real_color (element : Element) : outcome ParseError Z :=
  text <- extract_text element ;;
  match parse_f32 text with
  | Some real_value => Ok (f32_as_u8 (f32_mul_255 real_value))
  | None => Err ParseFloat
  end.

(** [Element::get_children(name, None)]: the child elements with that name
    and no namespace, in document order. *)
Definition is_named (name : string) (c : Element) : bool :=
  String.eqb (el_name c) name && match el_ns c with None => true | Some _ => false end.

Definition child_named (name : string) (x : Xml) : list Element :=
  match x with
  | ElementNode c => if is_named name c then [c] else []
  | _ => []
  end.

Definition get_children (e : Element) (name : string) : list Element :=
  flat_map (child_named name) (el_children e).

(** The [flat_map] keeping the [Xml::ElementNode] children of [value]. *)
Definition element_nodes (value : Element) : list Element :=
  flat_map (fun x => match x with ElementNode c => [c] | _ => [] end)
           (el_children value).

(** [for pair in element_nodes.chunks(2)]: a trailing single element is not
    a [[color_key, color_value]] pair and is skipped. *)
Fixpoint iterm_components (nodes : list Element) (color : Color)
  : outcome ParseError Color :=
  match nodes with
  | color_key :: color_value :: rest =>
      component_name <- extract_text color_key ;;
      if String.eqb component_name "Red Component" then
        v <- extract_real_color color_value ;;
        iterm_components rest (mkColor v (green color) (blue color))
      else if String.eqb component_name "Green Component" then
        v <- extract_real_color color_value ;;
        iterm_components rest (mkColor (red color) v (blue color))
      else if String.eqb component_name "Blue Component" then
        v <- extract_real_color color_value ;;
        iterm_components rest (mkColor (red color) (green color) v)
      else if String.eqb component_name "Alpha Component" then
        iterm_components rest color
      else if String.eqb component_name "Color Space" then
        iterm_components rest color
      else Err (UnknownColorComponent component_name)
  | _ => Ok color
  end.

(** The [match color_name { ... }] of [from_iterm]; [_ => ()] is [None]. *)
Definition iterm_slot (name : string) : option Scheme.Slot :=
  if String.eqb name "Ansi 0 Color" then Some Scheme.Black
  else if String.eqb name "Ansi 1 Color" then Some Scheme.Red
  else if String.eqb name "Ansi 2 Color" then Some Scheme.Green
  else if String.eqb name "Ansi 3 Color" then Some Scheme.Yellow
  else if String.eqb name "Ansi 4 Color" then Some Scheme.Blue
  else if String.eqb name "Ansi 5 Color" then Some Scheme.Magenta
  else if String.eqb name "Ansi 6 Color" then Some Scheme.Cyan
  else if String.eqb name "Ansi 7 Color" then Some Scheme.White
  else if String.eqb name "Ansi 8 Color" then Some Scheme.BrightBlack
  else if String.eqb name "Ansi 9 Color" then Some Scheme.BrightRed
  else if String.eqb name "Ansi 10 Color" then Some Scheme.BrightGreen
  else if String.eqb name "Ansi 11 Color" then Some Scheme.BrightYellow
  else if String.eqb name "Ansi 12 Color" then Some Scheme.BrightBlue
  else if String.eqb name "Ansi 13 Color" then Some Scheme.BrightMagenta
  else if String.eqb name "Ansi 14 Color" then Some Scheme.BrightCyan
  else if String.eqb name "Ansi 15 Color" then Some Scheme.BrightWhite
  else if String.eqb name "Background Color" then Some Scheme.Background
  else if String.eqb name "Foreground Color" then Some Scheme.Foreground
  else if String.eqb name "Cursor Color" then Some Scheme.Cursor
  else if String.eqb name "Cursor Text Color" then Some Scheme.CursorText
  else None.

(** One iteration of [for (key, value) in keys.zip(values)]. *)
Definition iterm_pair (scheme : ColorScheme) (key value : Element)
  : outcome ParseError ColorScheme :=
  color_name <- extract_text key ;;
  color <- iterm_components (element_nodes value) color_default ;;
  match iterm_slot color_name with
  | Some sl => Ok (Scheme.set_slot sl color scheme)
  | None => Ok scheme
  end.

Fixpoint iterm_pairs (scheme : ColorScheme) (ps : list (Element * Element))
  : outcome ParseError ColorScheme :=
  match ps with
  | [] => Ok scheme
  | (key, value) :: rest => s <- iterm_pair scheme key value ;; iterm_pairs s rest
  end.

(** The top-level (key, dict) pairs: [keys.zip(values)] of the [<key>] and
    the [<dict>] children of the root dictionary, each filtered separately. *)
Definition iterm_key_dicts (root_dict : Element) : list (Element * Element) :=
  combine (get_children root_dict "key") (get_children root_dict "dict").

(** [from_iterm] after [content.parse::<Element>()] (the [xml] crate's
    parser, outside this repository) has produced the document element. *)
Definition from_iterm_root (root : Element) : outcome ParseError ColorScheme :=
  match get_children root "dict" with
  | [] => Err NoRootDict
  | root_dict :: _ => iterm_pairs Scheme.default (iterm_key_dicts root_dict)
  end.

(** ** [Provider::download_all] *)

(** [struct Provider]. *)
Record Provider : Type := mkProvider {
  user_name : string; repo_name : string; list_path : string; extension : string }.

(** [Provider::iterm()] and [Provider::gogh()]. *)
Definition provider_iterm : Provider :=
  mkProvider "mbadolato" "iTerm2-Color-Schemes" "schemes" ".itermcolors".
Definition provider_gogh : Provider := mkProvider "Gogh-Co" "Gogh" "themes" ".sh".

(** [str::starts_with(char)] and [str::ends_with(&str)]. *)
Definition starts_with_char (c : ascii) (s : string) : bool :=
  match s with String c' _ => Ascii.eqb c c' | EmptyString => false end.

Definition ends_with (s suffix : string) : bool :=
  Nat.leb (String.length suffix) (String.length s)
  && String.eqb (substring (String.length s - String.length suffix)
                           (String.length suffix) s) suffix.

(** [s.replace(pat, "")]: every non-overlapping occurrence, left to right,
    removed (an empty pattern leaves [s] unchanged). *)
Fixpoint remove_all_aux (fuel : nat) (pat s : string) : string :=
  match fuel with
  | O => s
  | S f =>
      match s with
      | EmptyString => EmptyString
      | String c rest =>
          if negb (String.eqb pat EmptyString) && starts pat s
          then remove_all_aux f pat (substring (String.length pat)
                                        (String.length s - String.length pat) s)
          else String c (remove_all_aux f pat rest)
      end
  end.

Definition remove_all (pat s : string) : string :=
  remove_all_aux (String.length s) pat s.

(** [Provider::individual_url] and [Provider::list_url]. *)
Definition individual_url (p : Provider) (name : string) : string :=
  "https://raw.githubusercontent.com/" ++ user_name p ++ "/" ++ repo_name p
  ++ "/master/" ++ list_path p ++ "/" ++ name ++ extension p.

Definition list_url (p : Provider) : string :=
  "https://api.github.com/repos/" ++ user_name p ++ "/" ++ repo_name p
  ++ "/contents/" ++ list_path p.

(** The last byte of a string. *)
Fixpoint last_char (s : string) : option ascii :=
  match s with
  | EmptyString => None
  | String c EmptyString => Some c
  | String _ rest => last_char rest
  end.

(** [PathBuf::push] on Unix: an absolute [path] replaces the buffer;
    otherwise a ['/'] is added first unless the buffer is empty or already
    ends in one (an empty [path] thus leaves a trailing ['/']). *)
Definition path_push (buf path : string) : string :=
  let need_sep := match last_char buf with
                  | Some c => negb (Ascii.eqb c "/")
                  | None => false
                  end in
  if starts_with_char "/" path then path
  else (if need_sep then buf ++ "/" else buf) ++ path.

(** [Provider::repo_dir] below a cache directory ([dirs::cache_dir()]). *)
Definition repo_dir (cache : string) (p : Provider) : string :=
  path_push (path_push (path_push (path_push cache "colortty") "repositories")
                       (user_name p))
            (repo_name p).

(** [Path::components().next_back()] on Unix, scanning the path once: the
    segments between ['/'] separators, empty segments and ["."] segments
    skipped; the result is the start offset and the text of the last
    remaining segment. *)
Definition pick (st : nat) (seg : string) (best : option (nat * string))
  : option (nat * string) :=
  if String.eqb seg EmptyString || String.eqb seg "." then best else Some (st, seg).

Fixpoint last_component (s : string) (i st : nat) (seg : string)
    (best : option (nat * string)) : option (nat * string) :=
  match s with
  | EmptyString => pick st seg best
  | String c rest =>
      if Ascii.eqb c "/" then last_component rest (S i) (S i) EmptyString (pick st seg best)
      else last_component rest (S i) st (seg ++ String c EmptyString) best
  end.

(** [Path::file_name]: the last component when it is a normal one (not
    [".."]), with its offset in the path. *)
Definition file_name (path : string) : option (nat * string) :=
  match last_component path 0 0 EmptyString None with
  | Some (st, name) => if String.eqb name ".." then None else Some (st, name)
  | None => None
  end.

(** The position of the last ['.'] of a file name, if any. *)
Fixpoint last_dot_aux (s : string) (i : nat) (acc : option nat) : option nat :=
  match s with
  | EmptyString => acc
  | String c rest =>
      last_dot_aux rest (S i) (if Ascii.eqb c "." then Some i else acc)
  end.

(** [rsplit_file_at_dot] then [before.or(after)]: the file name up to its
    last ['.'], unless that dot is its first character. *)
Definition file_stem (name : string) : string :=
  match last_dot_aux name 0 None with
  | Some (S _ as i) => substring 0 i name
  | _ => name
  end.

(** [PathBuf::set_extension]: nothing without a file name; otherwise the
    path is cut right after the file stem, and ['.'] and [ext] are added
    unless [ext] is empty. *)
Definition set_extension (path ext : string) : string :=
  match file_name path with
  | None => path
  | Some (st, name) =>
      substring 0 (st + String.length (file_stem name)) path
      ++ (if String.eqb ext EmptyString then EmptyString else "." ++ ext)
  end.

(** [Provider::individual_path]: [repo_dir] with [name] pushed and
    [&self.extension[1..]] set as extension.  Providers come only from
    [Provider::iterm] and [Provider::gogh] ([Provider::new] is private):
    their extensions are ASCII, start with ['.'] and hold no ['/'], so the
    slice and [set_extension] do not panic. *)
Definition individual_path (cache : string) (p : Provider) (name : string) : string :=
  set_extension (path_push (repo_dir cache p) name)
                (substring 1 (String.length (extension p) - 1) (extension p)).

(** The observable effects of [download_all], in order.  [JoinStart urls]
    is [future::try_join_all(futures).await]: the fetches of all [urls] are
    in flight together from that point until the join completes. *)
Inductive Event : Type :=
| CreateDir (path : string)
| GetList (url : string)
| JoinStart (urls : list string)
| Fetch (url : string)
| WriteFile (path : string) (body : string)
| JoinEnd.

(** The part of the environment that [download_all] talks to. *)
Section Download.

(** [dirs::cache_dir()]. *)
Variable cache_dir : option string.
(** Whether [fs::create_dir_all] succeeds on the repository directory. *)
Variable create_dir_ok : bool.
(** [send_http_request(surf::get(url))]: the body, or an error. *)
Variable http_get : string -> option string.
(** [json::parse] of the listing followed by [item["name"].as_str()] on every
    member: [None] for malformed JSON, [None] items for a missing name. *)
Variable parse_listing : string -> option (list (option string)).
(** Whether [fs::write] to a path succeeds. *)
Variable write_ok : string -> bool.

(** [Provider::download_color_scheme]: fetch, then write to the cache. *)
Definition download_color_scheme (cache : string) (p : Provider) (fut : string * string)
  : list Event * outcome ProviderError unit :=
  let '(url, name) := fut in
  match http_get url with
  | None => ([Fetch url], Err (HttpFailed url))
  | Some body =>
      let path := individual_path cache p name in
      if write_ok path then ([Fetch url; WriteFile path body], Ok tt)
      else ([Fetch url], Err (WriteFailed name))
  end.

(** [future::try_join_all(futures).await]: all futures are started together;
    the join ends with the first error.  The futures are taken to complete
    in list order (one admissible schedule). *)
Fixpoint join_all (cache : string) (p : Provider) (futs : list (string * string))
  : list Event * outcome ProviderError unit :=
  match futs with
  | [] => ([JoinEnd], Ok tt)
  | f :: rest =>
      let '(evs, r) := download_color_scheme cache p f in
      match r with
      | Ok _ => let '(evs', r') := join_all cache p rest in (evs ++ evs', r')%list
      | Err e => ((evs ++ [JoinEnd])%list, Err e)
      | Panic => (evs, Panic)
      end
  end.

Definition try_join_all (cache : string) (p : Provider) (futs : list (string * string))
  : list Event * outcome ProviderError unit :=
  let '(evs, r) := join_all cache p futs in (JoinStart (map fst futs) :: evs, r).

(** The loop [for item in items.members()] of [download_all].  A Rust
    future does nothing until it is polled: pushing it onto [futures] has no
    effect, only [try_join_all] runs it. *)
Fixpoint download_loop (cache : string) (p : Provider) (items : list (option string))
  (futures : list (string * string)) : list Event * outcome ProviderError unit :=
  match items with
  | [] => ([], Ok tt)
  | item :: rest =>
      match item with
      | None => ([], Panic)
      | Some filename =>
          if starts_with_char "_" filename || negb (ends_with filename (extension p))
          then download_loop cache p rest futures
          else
            let name := remove_all (extension p) filename in
            let futures := (futures ++ [(individual_url p name, name)])%list in
            if Nat.ltb 10 (List.length futures) then
              let '(evs, r) := try_join_all cache p futures in
              match r with
              | Ok _ => let '(evs', r') := download_loop cache p rest [] in (evs ++ evs', r')%list
              | Err e => (evs, Err e)
              | Panic => (evs, Panic)
              end
            else download_loop cache p rest futures
      end
  end.

(** [Provider::download_all]. *)
Definition download_all (p : Provider) : list Event * outcome ProviderError unit :=
  match cache_dir with
  | None => ([], Err NoCacheDir)
  | Some cache =>
      let dir := repo_dir cache p in
      if negb create_dir_ok then ([CreateDir dir], Err CreateDirFailed)
      else
        match http_get (list_url p) with
        | None => ([CreateDir dir; GetList (list_url p)], Err (HttpFailed (list_url p)))
        | Some list_body =>
            match parse_listing list_body with
            | None => ([CreateDir dir; GetList (list_url p)], Err ListParseFailed)
            | Some items =>
                let '(evs, r) := download_loop cache p items [] in
                (CreateDir dir :: GetList (list_url p) :: evs, r)
            end
        end
  end.

End Download.

(** ** Reading of the specification *)

(** The decimal text of a number, as in ["12,3,255"]. *)
Fixpoint decimal_aux (fuel : nat) (n : Z) (acc : string) : string :=
  match fuel with
  | O => acc
  | S f =>
      let acc' := String (ascii_of_N (Z.to_N (48 + n mod 10))) acc in
      if n <? 10 then acc' else decimal_aux f (n / 10) acc'
  end.

Definition decimal (n : Z) : string := decimal_aux 4 n EmptyString.

(** Two lowercase hexadecimal digits, the high one first. *)
Definition hex_chars : list ascii := list_ascii_of_string "0123456789abcdef".

Definition two_hex (n : Z) : string :=
  String (nth (Z.to_nat (n / 16)) hex_chars "0"%char)
    (String (nth (Z.to_nat (n mod 16)) hex_chars "0"%char) EmptyString).

(** The value of a hexadecimal digit [0-9a-fA-F]. *)
Definition hex_value (c : ascii) : option Z :=
  let b := byte_of c in
  if (48 <=? b) && (b <=? 57) then Some (b - 48)
  else if (97 <=? b) && (b <=? 102) then Some (b - 87)
  else if (65 <=? b) && (b <=? 70) then Some (b - 55)
  else None.

(** What [u8::from_str_radix(_, 16)] accepts on two bytes: two hex digits,
    or ['+'] and one hex digit. *)
Definition hex_pair (p : string) : option Z :=
  match p with
  | String a (String b EmptyString) =>
      match hex_value a, hex_value b with
      | Some x, Some y => Some (16 * x + y)
      | None, Some y => if Ascii.eqb a "+" then Some y else None
      | _, None => None
      end
  | _ => None
  end.

(** The decoding of a 7-byte ['#RRGGBB'] by pairs at offsets 1, 3 and 5. *)
Definition gogh_color_spec (s : string) : outcome ParseError Color :=
  match hex_pair (substring 1 2 s), hex_pair (substring 3 2 s),
        hex_pair (substring 5 2 s) with
  | Some r, Some g, Some b => Ok (mkColor r g b)
  | _, _, _ => Err ParseInt
  end.

Definition ascii_only (s : string) : bool :=
  forallb (fun c => byte_of c <? 128) (list_ascii_of_string s).

Definition no_char (c : ascii) (s : string) : bool :=
  forallb (fun c' => negb (Ascii.eqb c' c)) (list_ascii_of_string s).

(** [pat] occurs in [s]. *)
Fixpoint occurs (pat s : string) : bool :=
  starts pat s || match s with
                  | EmptyString => false
                  | String _ s' => occurs pat s'
                  end.

(** A scheme with its two optional slots replaced. *)
Definition with_cursors (s : ColorScheme) (ct c : option Color) : ColorScheme :=
  Scheme.mkScheme (Scheme.foreground s) (Scheme.background s) ct c
    (Scheme.black s) (Scheme.red s) (Scheme.green s) (Scheme.yellow s)
    (Scheme.blue s) (Scheme.magenta s) (Scheme.cyan s) (Scheme.white s)
    (Scheme.bright_black s) (Scheme.bright_red s) (Scheme.bright_green s)
    (Scheme.bright_yellow s) (Scheme.bright_blue s) (Scheme.bright_magenta s)
    (Scheme.bright_cyan s) (Scheme.bright_white s).

(** The eighteen mintty key names of the specification and their slots. *)
Definition mintty_table : list (string * Scheme.Slot) :=
  [("ForegroundColour", Scheme.Foreground); ("BackgroundColour", Scheme.Background);
   ("Black", Scheme.Black); ("Red", Scheme.Red); ("Green", Scheme.Green);
   ("Yellow", Scheme.Yellow); ("Blue", Scheme.Blue); ("Magenta", Scheme.Magenta);
   ("Cyan", Scheme.Cyan); ("White", Scheme.White);
   ("BoldBlack", Scheme.BrightBlack); ("BoldRed", Scheme.BrightRed);
   ("BoldGreen", Scheme.BrightGreen); ("BoldYellow", Scheme.BrightYellow);
   ("BoldBlue", Scheme.BrightBlue); ("BoldMagenta", Scheme.BrightMagenta);
   ("BoldCyan", Scheme.BrightCyan); ("BoldWhite", Scheme.BrightWhite)].

Fixpoint lookup {A} (k : string) (t : list (string * A)) : option A :=
  match t with
  | [] => None
  | (k', v) :: t' => if String.eqb k k' then Some v else lookup k t'
  end.

Fixpoint count_char (c : ascii) (s : string) : nat :=
  match s with
  | EmptyString => O
  | String c' s' => if Ascii.eqb c' c then S (count_char c s') else count_char c s'
  end.

(** The eight normal and the eight bright ANSI slots, in order. *)
Definition normal_slots : list Scheme.Slot :=
  [Scheme.Black; Scheme.Red; Scheme.Green; Scheme.Yellow;
   Scheme.Blue; Scheme.Magenta; Scheme.Cyan; Scheme.White].
Definition bright_slots : list Scheme.Slot :=
  [Scheme.BrightBlack; Scheme.BrightRed; Scheme.BrightGreen; Scheme.BrightYellow;
   Scheme.BrightBlue; Scheme.BrightMagenta; Scheme.BrightCyan; Scheme.BrightWhite].

(** ["COLOR_01"] .. ["COLOR_16"]. *)
Definition gogh_color_name (i : Z) : string :=
  "COLOR_" ++ (if i <? 10 then "0" else "") ++ decimal i.

(** The names recognized by the specification in a Gogh export line. *)
Definition gogh_names : list string :=
  "FOREGROUND_COLOR" :: "BACKGROUND_COLOR"
  :: map gogh_color_name (map Z.of_nat (seq 1 16)).

(** No nonempty suffix of [x] overlaps the start of [pat]: an occurrence
    of [pat] in [x ++ y] cannot start inside [x]. *)
Fixpoint straddle_free (pat x : string) : bool :=
  match x with
  | EmptyString => true
  | String c x' =>
      negb (starts pat x || starts x pat) && straddle_free pat x'
  end.

(** The component keys the specification lists for an iTerm color. *)
Definition component_names : list string :=
  ["Red Component"; "Green Component"; "Blue Component"; "Alpha Component"; "Color Space"].

(** A list of (key, value) elements laid out as [key, value, key, value, ...]. *)
Definition flat_pairs (ps : list (Element * Element)) : list Element :=
  flat_map (fun kv => [fst kv; snd kv]) ps.

(** A child of the root dictionary that is neither a [<key>] nor a [<dict>]
    element: text, comments, or other elements such as [<string>]. *)
Definition no_key_dict (x : Xml) : bool :=
  match x with
  | ElementNode c => negb (is_named "key" c || is_named "dict" c)
  | _ => true
  end.

(** One slot entry of a root dictionary as the specification describes it:
    other nodes, the [<key>], other nodes, the slot's own [<dict>]. *)
Definition Entry : Type := list Xml * Element * list Xml * Element.

Definition entry_children (en : Entry) : list Xml :=
  let '(j1, k, j2, d) := en in (j1 ++ ElementNode k :: j2 ++ [ElementNode d])%list.

Definition entry_ok (en : Entry) : bool :=
  let '(j1, k, j2, d) := en in
  forallb no_key_dict j1 && is_named "key" k && forallb no_key_dict j2 && is_named "dict" d.

Definition entry_pair (en : Entry) : Element * Element :=
  let '(_, k, _, d) := en in (k, d).

(** A root dictionary whose keys may lack a dictionary of their own: each
    item is an entry as above, or an orphan [<key>] with other nodes around
    it (its value being, e.g., a [<string>]). *)
Inductive Item : Type :=
| Paired (en : Entry)
| Orphan (j1 : list Xml) (k : Element) (j2 : list Xml).

Definition item_children (it : Item) : list Xml :=
  match it with
  | Paired en => entry_children en
  | Orphan j1 k j2 => (j1 ++ ElementNode k :: j2)%list
  end.

Definition item_ok (it : Item) : bool :=
  match it with
  | Paired en => entry_ok en
  | Orphan j1 k j2 => forallb no_key_dict j1 && is_named "key" k && forallb no_key_dict j2
  end.

Definition item_key (it : Item) : Element :=
  match it with
  | Paired en => fst (entry_pair en)
  | Orphan _ k _ => k
  end.

Definition item_dicts (it : Item) : list Element :=
  match it with
  | Paired en => [snd (entry_pair en)]
  | Orphan _ _ _ => []
  end.

Definition orphan_count (its : list Item) : nat :=
  List.length (filter (fun it => match it with Orphan _ _ _ => true | Paired _ => false end) its).

(** XML builders for concrete documents. *)
Definition xel (name : string) (children : list Xml) : Element := Elem name None children.
Definition xtext (name text : string) : Xml := ElementNode (xel name [CharacterNode text]).
Definition plist (root_children : list Xml) : Element :=
  xel "plist" [ElementNode (xel "dict" root_children)].

(** A file name kept by the filter of [download_all]. *)
Definition qualifies (p : Provider) (filename : string) : bool :=
  negb (starts_with_char "_" filename) && ends_with filename (extension p).


(** An environment in which every request and every write succeeds and the
    listing holds the given file names. *)
Definition ok_get (url : string) : option string := Some "body".
Definition ok_write (path : string) : bool := true.
Definition listing_of (names : list string) (body : string) : option (list (option string)) :=
  Some (map Some names).

Definition gogh_files (n : nat) : list string :=
  map (fun i => "t" ++ decimal (Z.of_nat i) ++ ".sh") (seq 1 n).

(** The URLs fetched for [gogh_files n]. *)
Definition gogh_urls (n : nat) : list string :=
  map (fun f => individual_url provider_gogh (remove_all ".sh" f)) (gogh_files n).



(** [name] is what [download_all] makes of a listed file name it keeps. *)
Definition from_listed (p : Provider) (items : list (option string)) (name : string) : Prop :=
  exists f, In (Some f) items /\ qualifies p f = true /\ name = remove_all (extension p) f.

(** A fetch or a write of a scheme taken from the listing [items]. *)
Definition event_from_listed (http_get : string -> option string) (cache : string)
    (p : Provider) (items : list (option string)) (ev : Event) : Prop :=
  match ev with
  | Fetch u => exists name, from_listed p items name /\ u = individual_url p name
  | WriteFile path body =>
      exists name, from_listed p items name /\ path = individual_path cache p name
                   /\ http_get (individual_url p name) = Some body
  | _ => True
  end.

(** ** [ColorSchemeFormat] and the format choice of [convert] (main.rs) *)

(** [enum ColorSchemeFormat]. *)
Inductive ColorSchemeFormat : Type := ITerm | Mintty | Gogh.

(** [ColorSchemeFormat::from_string]. *)
Definition format_from_string (s : string) : option ColorSchemeFormat :=
  if String.eqb s "iterm" then Some ITerm
  else if String.eqb s "mintty" then Some Mintty
  else if String.eqb s "gogh" then Some Gogh
  else None.

(** [ColorSchemeFormat::from_filename]. *)
Definition format_from_filename (s : string) : option ColorSchemeFormat :=
  if ends_with s ".itermcolors" then Some ITerm
  else if ends_with s ".minttyrc" then Some Mintty
  else if ends_with s ".sh" then Some Gogh
  else None.

(** In [fn convert]: [matches.opt_str("i").and_then(from_string)
    .or_else(|| from_filename(source))]; [None] is [MissingInputFormat]. *)
Definition convert_format (opt_i : option string) (source : string)
  : option ColorSchemeFormat :=
  match match opt_i with Some s => format_from_string s | None => None end with
  | Some f => Some f
  | None => format_from_filename source
  end.

(** ** [Color::to_24bit_be], [Color::to_24bit_preview], [ColorScheme::to_preview] *)

(** The escape character ['\x1b'] and the three UTF-8 bytes of ['●']. *)
Definition ESC : ascii := "027"%char.
Definition bullet : string :=
  String "226"%char (String "151"%char (String "143"%char EmptyString)).

(** [format!("\x1b[48;2;{};{};{}m", ...)]; a [u8] is displayed by [decimal]. *)
Definition to_24bit_be (c : Color) : string :=
  String ESC ("[48;2;" ++ decimal (red c) ++ ";" ++ decimal (green c) ++ ";"
              ++ decimal (blue c) ++ "m").

(** [format!("\x1b[38;2;{};{};{}m●", ...)]. *)
Definition to_24bit_preview (c : Color) : string :=
  String ESC ("[38;2;" ++ decimal (red c) ++ ";" ++ decimal (green c) ++ ";"
              ++ decimal (blue c) ++ "m" ++ bullet).

(** [ColorScheme::to_preview]: [colors.join("")]. *)
Definition to_preview (s : ColorScheme) : string :=
  String.concat ""
    [to_24bit_be (Scheme.background s); " "; to_24bit_preview (Scheme.foreground s); "  ";
     to_24bit_preview (Scheme.black s); to_24bit_preview (Scheme.red s);
     to_24bit_preview (Scheme.green s); to_24bit_preview (Scheme.yellow s);
     to_24bit_preview (Scheme.blue s); to_24bit_preview (Scheme.magenta s);
     to_24bit_preview (Scheme.cyan s); to_24bit_preview (Scheme.white s); "  ";
     to_24bit_preview (Scheme.bright_black s); to_24bit_preview (Scheme.bright_red s);
     to_24bit_preview (Scheme.bright_green s); to_24bit_preview (Scheme.bright_yellow s);
     to_24bit_preview (Scheme.bright_blue s); to_24bit_preview (Scheme.bright_magenta s);
     to_24bit_preview (Scheme.bright_cyan s); to_24bit_preview (Scheme.bright_white s);
     " "; String ESC "[0m"].

(** ** [Provider::get], [Provider::parse_color_scheme] and the cache reader *)

(** The errors seen by the callers of provider.rs ([anyhow::Error]), by kind. *)
Inductive AppError : Type :=
| ProviderErr (e : ProviderError)
| ParseErr (e : ParseError)
| ReadDirFailed
| ReadEntryFailed
| ReadFailed (name : string).

(** [?] on a result whose error converts into [anyhow::Error]. *)
Definition map_err {E F A} (f : E -> F) (m : outcome E A) : outcome F A :=
  match m with
  | Ok a => Ok a
  | Err e => Err (f e)
  | Panic => Panic
  end.

(** [future::try_join_all] over futures that do nothing until joined: the
    results in order, the first error ending the join (futures taken to
    complete in list order). *)
Fixpoint join_results {A} (rs : list (outcome AppError A)) : outcome AppError (list A) :=
  match rs with
  | [] => Ok []
  | r :: rest => x <- r ;; xs <- join_results rest ;; Ok (x :: xs)
  end.

(** [String::from_utf8] validity ([OsString::into_string] on Unix): each
    code point is one of the well-formed byte sequences, with no overlong
    form, no surrogate and nothing above U+10FFFF. *)
Definition in_range (lo hi : Z) (c : ascii) : bool :=
  (lo <=? byte_of c) && (byte_of c <=? hi).

Fixpoint valid_utf8 (s : string) : bool :=
  match s with
  | EmptyString => true
  | String c1 r1 =>
      let b1 := byte_of c1 in
      if b1 <? 128 then valid_utf8 r1
      else if (194 <=? b1) && (b1 <=? 223) then
        match r1 with
        | String c2 r2 => in_range 128 191 c2 && valid_utf8 r2
        | _ => false
        end
      else if (224 <=? b1) && (b1 <=? 239) then
        match r1 with
        | String c2 (String c3 r3) =>
            (if b1 =? 224 then in_range 160 191 c2
             else if b1 =? 237 then in_range 128 159 c2
             else in_range 128 191 c2)
            && in_range 128 191 c3 && valid_utf8 r3
        | _ => false
        end
      else if (240 <=? b1) && (b1 <=? 244) then
        match r1 with
        | String c2 (String c3 (String c4 r4)) =>
            (if b1 =? 240 then in_range 144 191 c2
             else if b1 =? 244 then in_range 128 143 c2
             else in_range 128 191 c2)
            && in_range 128 191 c3 && in_range 128 191 c4 && valid_utf8 r4
        | _ => false
        end
      else false
  end.

Section Cache.

(** [dirs::cache_dir()], as in [download_all]. *)
Variable cache_dir : option string.
(** [send_http_request(surf::get(url))]. *)
Variable http_get : string -> option string.
(** [content.parse::<Element>()] of the [xml] crate: the document element. *)
Variable parse_xml : string -> option Element.
(** [fs::read_dir]: the file names of the entries (their bytes), [None]
    for an entry that cannot be read; [None] when the directory cannot be
    read. *)
Variable read_dir : string -> option (list (option string)).
(** [fs::read_to_string]. *)
Variable read_file : string -> option string.

(** [ColorScheme::from_iterm]. *)
Definition from_iterm (content : string) : outcome ParseError ColorScheme :=
  match parse_xml content with
  | None => Err XMLParse
  | Some root => from_iterm_root root
  end.

(** [Provider::parse_color_scheme]. *)
Definition parse_color_scheme (p : Provider) (body : string) : outcome ParseError ColorScheme :=
  if String.eqb (extension p) ".itermcolors" then from_iterm body else from_gogh body.

(** [Provider::get]. *)
Definition get (p : Provider) (name : string) : outcome AppError ColorScheme :=
  let url := individual_url p name in
  match http_get url with
  | None => Err (ProviderErr (HttpFailed url))
  | Some body => map_err ParseErr (parse_color_scheme p body)
  end.

(** [Provider::read_color_scheme] ([individual_path] below [cache]). *)
Definition read_color_scheme (cache : string) (p : Provider) (name : string)
  : outcome AppError (string * ColorScheme) :=
  match read_file (individual_path cache p name) with
  | None => Err (ReadFailed name)
  | Some body =>
      color_scheme <- map_err ParseErr (parse_color_scheme p body) ;;
      Ok (name, color_scheme)
  end.

(** The [while let Some(entry) = entries.next().await] loop: the names
    [filename.replace(&self.extension, "")]; an unreadable entry returns at
    once and a file name that is not UTF-8 panics at
    [into_string().unwrap()], both before any future runs. *)
Fixpoint entry_names (p : Provider) (entries : list (option string))
  : outcome AppError (list string) :=
  match entries with
  | [] => Ok []
  | None :: _ => Err ReadEntryFailed
  | Some filename :: rest =>
      if valid_utf8 filename then
        names <- entry_names p rest ;; Ok (remove_all (extension p) filename :: names)
      else Panic
  end.

(** [Provider::read_color_schemes]. *)
Definition read_color_schemes (p : Provider)
  : outcome AppError (list (string * ColorScheme)) :=
  match cache_dir with
  | None => Err (ProviderErr NoCacheDir)
  | Some cache =>
      match read_dir (repo_dir cache p) with
      | None => Err ReadDirFailed
      | Some entries =>
          names <- entry_names p entries ;;
          join_results (map (read_color_scheme cache p) names)
      end
  end.

End Cache.

(** A file name with no ['.'] in it. *)
Definition dotless (s : string) : bool := no_char "." s.

(** The raw URL of a file of the provider's catalog directory. *)
Definition raw_url (p : Provider) (filename : string) : string :=
  "https://raw.githubusercontent.com/" ++ user_name p ++ "/" ++ repo_name p
  ++ "/master/" ++ list_path p ++ "/" ++ filename.

(** The twenty slots' values, cursors aside, and the cursor pair. *)
Definition base_colors (s : ColorScheme) : list Color :=
  [Scheme.foreground s; Scheme.background s;
   Scheme.black s; Scheme.red s; Scheme.green s; Scheme.yellow s;
   Scheme.blue s; Scheme.magenta s; Scheme.cyan s; Scheme.white s;
   Scheme.bright_black s; Scheme.bright_red s; Scheme.bright_green s;
   Scheme.bright_yellow s; Scheme.bright_blue s; Scheme.bright_magenta s;
   Scheme.bright_cyan s; Scheme.bright_white s].

Definition cursor_pair (s : ColorScheme) : option (Color * Color) :=
  match Scheme.cursor_text s, Scheme.cursor s with
  | Some a, Some b => Some (a, b)
  | _, _ => None
  end.

(** Components in [0, 255], the range of a [u8]. *)
Definition u8_color (c : Color) : bool :=
  (0 <=? red c) && (red c <=? 255) && (0 <=? green c) && (green c <=? 255)
  && (0 <=? blue c) && (blue c <=? 255).

Definition u8_scheme (s : ColorScheme) : bool :=
  forallb u8_color (base_colors s)
  && match Scheme.cursor_text s with Some c => u8_color c | None => true end
  && match Scheme.cursor s with Some c => u8_color c | None => true end.

(** * Properties *)

(** ** Strings *)

Lemma split_char_app (sep : ascii) (a rest : string) :
  no_char sep a = true ->
  split_char sep (a ++ String sep rest) = a :: split_char sep rest.
Proof.
  induction a as [| c a IH]; intros H; simpl.
  - rewrite Ascii.eqb_refl. reflexivity.
  - unfold no_char in H; simpl in H.
    destruct (Ascii.eqb c sep); simpl in H; [discriminate |].
    rewrite IH by exact H. reflexivity.
Qed.

Lemma split_char_single (sep : ascii) (a : string) :
  no_char sep a = true -> split_char sep a = [a].
Proof.
  induction a as [| c a IH]; intros H; simpl; [reflexivity |].
  unfold no_char in H; simpl in H.
  destruct (Ascii.eqb c sep); simpl in H; [discriminate |].
  rewrite IH by exact H. reflexivity.
Qed.

(** A property of a [u8] checked on all 256 values. *)
Lemma u8_cases (P : Z -> bool) :
  forallb P (map Z.of_nat (seq 0 256)) = true ->
  forall n, 0 <= n <= 255 -> P n = true.
Proof.
  intros H n Hn. rewrite forallb_forall in H. apply H.
  apply in_map_iff. exists (Z.to_nat n). split; [lia |].
  apply in_seq. lia.
Qed.

Lemma parse_int_decimal (n : Z) :
  0 <= n <= 255 -> parse_int (decimal n) = Ok n.
Proof.
  intros Hn.
  pose proof (u8_cases (fun n => match parse_int (decimal n) with
                                 | Ok v => v =? n | _ => false end)
                ltac:(vm_compute; reflexivity) n Hn) as H.
  simpl in H. destruct (parse_int (decimal n)); try discriminate.
  apply Z.eqb_eq in H. subst. reflexivity.
Qed.

Lemma decimal_no_comma (n : Z) :
  0 <= n <= 255 -> no_char "," (decimal n) = true.
Proof.
  intros Hn. exact (u8_cases (fun n => no_char "," (decimal n))
                      ltac:(vm_compute; reflexivity) n Hn).
Qed.

Lemma pad_lower_hex (n : Z) :
  0 <= n <= 255 -> pad_zero 2 (lower_hex n) = two_hex n.
Proof.
  intros Hn.
  pose proof (u8_cases (fun n => String.eqb (pad_zero 2 (lower_hex n)) (two_hex n))
                ltac:(vm_compute; reflexivity) n Hn) as H.
  apply String.eqb_eq in H. exact H.
Qed.

(** ** C8: mintty colors and [to_hex] *)

(** C8: for every red, green, blue in [0, 255], [from_mintty_color "R,G,B"]
    succeeds with components [{R, G, B}], and [to_hex] of the result is
    ["0x"] followed by the three components as two lowercase, zero-padded
    hexadecimal digits. *)
Theorem from_mintty_color_to_hex (r g b : Z) :
  0 <= r <= 255 -> 0 <= g <= 255 -> 0 <= b <= 255 ->
  from_mintty_color (decimal r ++ "," ++ decimal g ++ "," ++ decimal b)
    = Ok (mkColor r g b)
  /\ to_hex (mkColor r g b) = "0x" ++ two_hex r ++ two_hex g ++ two_hex b.
Proof.
  intros Hr Hg Hb. split.
  - unfold from_mintty_color. cbn [String.append].
    rewrite (split_char_app "," (decimal r)) by (apply decimal_no_comma; lia).
    rewrite (split_char_app "," (decimal g)) by (apply decimal_no_comma; lia).
    rewrite (split_char_single "," (decimal b)) by (apply decimal_no_comma; lia).
    simpl. rewrite !parse_int_decimal by lia. reflexivity.
  - unfold to_hex. simpl red; simpl green; simpl blue.
    rewrite !pad_lower_hex by lia. reflexivity.
Qed.

Lemma from_mintty_color_to_hex_witness :
  (0 <= 12 <= 255 /\ 0 <= 3 <= 255 /\ 0 <= 255 <= 255)
  /\ from_mintty_color (decimal 12 ++ "," ++ decimal 3 ++ "," ++ decimal 255)
       = Ok (mkColor 12 3 255)
  /\ to_hex (mkColor 12 3 255) = "0x0c03ff".
Proof.
  split; [lia |].
  destruct (from_mintty_color_to_hex 12 3 255 ltac:(lia) ltac:(lia) ltac:(lia))
    as [H1 H2].
  split; [exact H1 | rewrite H2; reflexivity].
Defined.

(** ** C3: [from_gogh_color] *)

Lemma to_digit_hex (c : ascii) : to_digit 16 c = hex_value c.
Proof. destruct c as [[] [] [] [] [] [] [] []]; reflexivity. Qed.

Lemma hex_value_range (c : ascii) (d : Z) :
  hex_value c = Some d -> 0 <= d < 16.
Proof.
  unfold hex_value. set (b := byte_of c).
  destruct ((48 <=? b) && (b <=? 57)) eqn:E1;
    [intros [= <-]; apply andb_prop in E1 as [E1 E2]; lia |].
  destruct ((97 <=? b) && (b <=? 102)) eqn:E3;
    [intros [= <-]; apply andb_prop in E3 as [E3 E4]; lia |].
  destruct ((65 <=? b) && (b <=? 70)) eqn:E5;
    [intros [= <-]; apply andb_prop in E5 as [E5 E6]; lia | discriminate].
Qed.

Lemma byte_of_range (c : ascii) : 0 <= byte_of c <= 255.
Proof. destruct c as [[] [] [] [] [] [] [] []]; vm_compute; split; discriminate. Qed.

Ltac decide_ltb :=
  repeat match goal with
         | |- context [?x <? ?y] => destruct (Z.ltb_spec x y); try lia
         end.

Lemma parse_hex_pair (a b : ascii) :
  parse_hex (String a (String b EmptyString))
  = match hex_pair (String a (String b EmptyString)) with
    | Some v => Ok v
    | None => Err ParseInt
    end.
Proof.
  unfold parse_hex, from_str_radix_u8, hex_pair. simpl u8_digits.
  rewrite !to_digit_hex.
  destruct (Ascii.eqb a "+") eqn:Ea.
  - apply Ascii.eqb_eq in Ea. subst a. simpl.
    destruct (hex_value b) as [y |] eqn:Hy; [| reflexivity].
    apply hex_value_range in Hy. decide_ltb. reflexivity.
  - destruct (hex_value a) as [x |] eqn:Hx.
    + apply hex_value_range in Hx.
      destruct (hex_value b) as [y |] eqn:Hy; [| decide_ltb; reflexivity].
      apply hex_value_range in Hy. decide_ltb.
      f_equal. lia.
    + destruct (hex_value b); reflexivity.
Qed.

Lemma is_continuation_ascii (c : ascii) :
  byte_of c < 128 -> is_continuation c = false.
Proof.
  intros H. unfold is_continuation. destruct (Z.leb_spec 128 (byte_of c)); [lia |].
  reflexivity.
Qed.

Lemma from_gogh_color_ascii7 (s : string) :
  String.length s = 7%nat -> ascii_only s = true ->
  from_gogh_color s = gogh_color_spec s.
Proof.
  intros Hlen Hasc.
  destruct s as [| c0 [| c1 [| c2 [| c3 [| c4 [| c5 [| c6 [| c7 s]]]]]]]];
    simpl in Hlen; try lia.
  unfold ascii_only in Hasc; simpl in Hasc.
  repeat match goal with
         | H : _ && _ = true |- _ => apply andb_prop in H as [?H ?H]
         | H : (_ <? _) = true |- _ => apply Z.ltb_lt in H
         end.
  unfold from_gogh_color, slice, is_char_boundary. simpl.
  rewrite !is_continuation_ascii by assumption. simpl.
  rewrite !parse_hex_pair.
  unfold gogh_color_spec. cbn [substring].
  destruct (hex_pair (String c1 (String c2 EmptyString))),
    (hex_pair (String c3 (String c4 EmptyString))),
    (hex_pair (String c5 (String c6 EmptyString))); reflexivity.
Qed.

Lemma slice_oob (s : string) (a b : nat) :
  (String.length s < b)%nat -> slice s a b = Panic.
Proof.
  intros H. unfold slice. destruct (Nat.leb_spec b (String.length s)); [lia |].
  rewrite andb_false_r. reflexivity.
Qed.

Lemma slice_ok_bound (s q : string) (a b : nat) :
  slice s a b = Ok q -> (b <= String.length s)%nat.
Proof.
  unfold slice. destruct (Nat.leb_spec b (String.length s)); [intros; lia |].
  rewrite andb_false_r. discriminate.
Qed.

Lemma slice_not_err (s : string) (a b : nat) (e : ParseError) : slice s a b <> Err e.
Proof. unfold slice. destruct (_ && _); discriminate. Qed.

Lemma parse_hex_err (q : string) (e : ParseError) : parse_hex q = Err e -> e = ParseInt.
Proof. unfold parse_hex. destruct (from_str_radix_u8 q 16); intros H; congruence. Qed.

(** C3 (amended): [from_gogh_color] slices without a bound check, so it
    panics on a string shorter than 3 bytes; on a string of 3 to 6 bytes it
    never succeeds: it panics unless a byte pair lying within the string
    (at offset 1 or 3) has already failed to decode, which gives
    [ParseInt]; on a string of 7 ASCII bytes it never panics and decodes
    the pairs at offsets 1, 3 and 5 with [u8::from_str_radix(_, 16)], which
    accepts two hex digits or ['+'] and one hex digit, failing with
    [ParseInt] otherwise. *)
Theorem from_gogh_color_cases (s : string) :
  ((String.length s < 3)%nat -> from_gogh_color s = Panic)
  /\ ((3 <= String.length s <= 6)%nat ->
      from_gogh_color s = Panic
      \/ (from_gogh_color s = Err ParseInt
          /\ exists k q, (k = 1 \/ k = 3)%nat /\ (k + 2 <= String.length s)%nat
             /\ slice s k (k + 2) = Ok q /\ parse_hex q = Err ParseInt))
  /\ (String.length s = 7%nat -> ascii_only s = true ->
      from_gogh_color s = gogh_color_spec s).
Proof.
  split; [| split].
  - intros Hlen.
    destruct s as [| c0 [| c1 [| c2 s]]]; simpl in Hlen; try lia; reflexivity.
  - intros Hlen. unfold from_gogh_color.
    destruct (slice s 1 3) as [p1 | e |] eqn:E1;
      [| exfalso; exact (slice_not_err s 1 3 e E1) | left; reflexivity].
    cbn [bind]. destruct (parse_hex p1) as [r | e |] eqn:P1; cbn [bind].
    + destruct (slice s 3 5) as [p2 | e |] eqn:E2;
        [| exfalso; exact (slice_not_err s 3 5 e E2) | left; reflexivity].
      cbn [bind]. destruct (parse_hex p2) as [g | e |] eqn:P2; cbn [bind].
      * rewrite slice_oob by lia. left. reflexivity.
      * right. pose proof (parse_hex_err _ _ P2) as ->. split; [reflexivity |].
        exists 3%nat, p2. split; [right; reflexivity |].
        split; [exact (slice_ok_bound s p2 3 5 E2) |]. split; [exact E2 |].
        exact P2.
      * left. reflexivity.
    + right. pose proof (parse_hex_err _ _ P1) as ->. split; [reflexivity |].
      exists 1%nat, p1. split; [left; reflexivity |].
      split; [exact (slice_ok_bound s p1 1 3 E1) |]. split; [exact E1 |].
      exact P1.
    + left. reflexivity.
  - exact (from_gogh_color_ascii7 s).
Qed.

Lemma from_gogh_color_cases_witness :
  (String.length "#1a2B3c" = 7%nat /\ ascii_only "#1a2B3c" = true)
  /\ from_gogh_color "#1a2B3c" = Ok (mkColor 26 43 60)
  /\ ((String.length "#1" < 3)%nat /\ from_gogh_color "#1" = Panic)
  /\ ((3 <= String.length "#12" <= 6)%nat
      /\ (from_gogh_color "#12" = Panic
          \/ (from_gogh_color "#12" = Err ParseInt
              /\ exists k q, (k = 1 \/ k = 3)%nat /\ (k + 2 <= String.length "#12")%nat
                 /\ slice "#12" k (k + 2) = Ok q /\ parse_hex q = Err ParseInt))).
Proof.
  split; [split; reflexivity |]. split.
  - destruct (from_gogh_color_cases "#1a2B3c") as [_ [_ H]].
    rewrite H by reflexivity. reflexivity.
  - split.
    + split; [simpl; lia |].
      destruct (from_gogh_color_cases "#1") as [H _]. apply H. simpl; lia.
    + split; [simpl; lia |].
      destruct (from_gogh_color_cases "#12") as [_ [H _]]. apply H. simpl; lia.
Defined.

(** C3, refuted as stated: the empty string makes [from_gogh_color] panic,
    and ["#+f0000"] decodes although ["+f"] is not a pair of hex digits. *)
Lemma from_gogh_color_short_panics :
  from_gogh_color "" = Panic /\ from_gogh_color "#+f0000" = Ok (mkColor 15 0 0).
Proof. split; reflexivity. Qed.

(** ** C10: the cursor block of [to_toml] *)

Lemma no_char_app (c : ascii) (a b : string) :
  no_char c (a ++ b) = no_char c a && no_char c b.
Proof.
  induction a as [| x a IH]; [reflexivity |].
  unfold no_char in *; simpl. rewrite IH. apply andb_assoc.
Qed.

Lemma lower_hex_aux_no_bracket (fuel : nat) (n : Z) (acc : string) :
  no_char "[" acc = true -> no_char "[" (lower_hex_aux fuel n acc) = true.
Proof.
  revert n acc. induction fuel as [| f IH]; intros n acc H; [exact H |].
  simpl.
  assert (Hd : no_char "[" (String (hex_digit (n mod 16)) acc) = true).
  { pose proof (Z.mod_pos_bound n 16 ltac:(lia)) as Hm.
    assert (Hdig : forall d, 0 <= d < 16 ->
                   negb (Ascii.eqb (hex_digit d) "[") = true).
    { intros d Hd.
      assert (Hl : In d (map Z.of_nat (seq 0 16))).
      { apply in_map_iff. exists (Z.to_nat d). split; [lia | apply in_seq; lia]. }
      simpl in Hl.
      repeat (destruct Hl as [<- | Hl]; [reflexivity |]). destruct Hl. }
    unfold no_char in *. simpl. rewrite (Hdig _ Hm). exact H. }
  destruct (n <? 16); [exact Hd | apply IH; exact Hd].
Qed.

Lemma pad_zero_no_bracket (w : nat) (s : string) :
  no_char "[" s = true -> no_char "[" (pad_zero w s) = true.
Proof.
  intros H. unfold pad_zero. rewrite no_char_app, H, andb_true_r.
  generalize (w - String.length s)%nat. intros k.
  induction k as [| k IH]; [reflexivity |].
  destruct k; [reflexivity |].
  change (String.concat "" (repeat "0" (S (S k))))
    with ("0" ++ "" ++ String.concat "" (repeat "0" (S k))).
  rewrite !no_char_app, IH. reflexivity.
Qed.

Lemma to_hex_no_bracket (c : Color) : no_char "[" (to_hex c) = true.
Proof.
  unfold to_hex, lower_hex.
  rewrite !no_char_app, !pad_zero_no_bracket by (apply lower_hex_aux_no_bracket; reflexivity).
  reflexivity.
Qed.

Lemma occurs_app_l (pat a b : string) :
  occurs pat b = true -> occurs pat (a ++ b) = true.
Proof.
  induction a as [| c a IH]; intros H; [exact H |].
  simpl. rewrite (IH H). apply orb_true_r.
Qed.

Lemma starts_app_r (pat a b : string) :
  starts pat a = true -> starts pat (a ++ b) = true.
Proof.
  revert a. induction pat as [| p pat IH]; intros a H; [reflexivity |].
  destruct a as [| x a]; [discriminate |].
  simpl in *. apply andb_prop in H as [Hx H]. rewrite Hx. exact (IH a H).
Qed.

Lemma occurs_app_r (pat a b : string) :
  occurs pat a = true -> occurs pat (a ++ b) = true.
Proof.
  induction a as [| c a IH]; intros H.
  - simpl in H. rewrite orb_false_r in H.
    destruct pat; [destruct b; reflexivity | discriminate].
  - change (occurs pat (String c a ++ b))
      with (starts pat (String c (a ++ b)) || occurs pat (a ++ b)).
    change (occurs pat (String c a))
      with (starts pat (String c a) || occurs pat a) in H.
    apply orb_true_iff in H as [H | H].
    + replace (starts pat (String c (a ++ b))) with true
        by (symmetry; exact (starts_app_r pat (String c a) b H)).
      reflexivity.
    + rewrite (IH H). apply orb_true_r.
Qed.

Lemma starts_app (pat a y : string) :
  starts pat (a ++ y) = true -> starts pat a = true \/ starts a pat = true.
Proof.
  revert a. induction pat as [| p pat IH]; intros a H; [left; reflexivity |].
  destruct a as [| x a]; [right; reflexivity |].
  simpl in H. apply andb_prop in H as [Hx H].
  simpl. rewrite Hx, Ascii.eqb_sym, Hx. simpl. exact (IH a H).
Qed.

Lemma occurs_app_free (pat x y : string) :
  straddle_free pat x = true -> occurs pat (x ++ y) = occurs pat y.
Proof.
  induction x as [| c x IH]; intros H; [reflexivity |].
  cbn [straddle_free] in H. apply andb_prop in H as [Hc Hx].
  change (occurs pat (String c x ++ y))
    with (starts pat (String c (x ++ y)) || occurs pat (x ++ y)).
  rewrite (IH Hx).
  destruct (starts pat (String c (x ++ y))) eqn:E; [| reflexivity].
  exfalso. apply (starts_app pat (String c x) y) in E.
  destruct E as [E | E]; rewrite E in Hc;
    [discriminate | rewrite orb_true_r in Hc; discriminate].
Qed.

Lemma straddle_free_no_bracket (pat x : string) :
  no_char "[" x = true -> straddle_free (String "[" pat) x = true.
Proof.
  induction x as [| c x IH]; intros H; [reflexivity |].
  unfold no_char in H. simpl in H.
  destruct (Ascii.eqb c "[") eqn:Ec; simpl in H; [discriminate |].
  cbn [straddle_free starts]. rewrite (Ascii.eqb_sym "[" c), Ec. simpl.
  apply IH. exact H.
Qed.

Lemma to_toml_cursor_header (s : ColorScheme) :
  occurs "[colors.cursor]" (to_toml s)
  = match Scheme.cursor_text s, Scheme.cursor s with
    | Some _, Some _ => true
    | _, _ => false
    end.
Proof.
  unfold to_toml, cursor_colors.
  destruct (Scheme.cursor_text s) as [ct |], (Scheme.cursor s) as [c |].
  - do 13 apply occurs_app_l. apply occurs_app_r. reflexivity.
  - repeat first
      [ rewrite (occurs_app_free _ (to_hex _))
          by (apply straddle_free_no_bracket, to_hex_no_bracket)
      | rewrite occurs_app_free by reflexivity ].
    reflexivity.
  - repeat first
      [ rewrite (occurs_app_free _ (to_hex _))
          by (apply straddle_free_no_bracket, to_hex_no_bracket)
      | rewrite occurs_app_free by reflexivity ].
    reflexivity.
  - repeat first
      [ rewrite (occurs_app_free _ (to_hex _))
          by (apply straddle_free_no_bracket, to_hex_no_bracket)
      | rewrite occurs_app_free by reflexivity ].
    reflexivity.
Qed.

(** C10: [to_toml] emits the cursor block (its [[colors.cursor]] header)
    if and only if both [cursor_text] and [cursor] are present; with only
    one of them set, the document is byte for byte the one with neither. *)
Theorem to_toml_cursor_block (s : ColorScheme) :
  (occurs "[colors.cursor]" (to_toml s) = true
   <-> exists ct c, Scheme.cursor_text s = Some ct /\ Scheme.cursor s = Some c)
  /\ (forall c : Color,
        to_toml (with_cursors s (Some c) None) = to_toml (with_cursors s None None)
        /\ to_toml (with_cursors s None (Some c)) = to_toml (with_cursors s None None)).
Proof.
  split.
  - rewrite to_toml_cursor_header.
    destruct (Scheme.cursor_text s) as [ct |], (Scheme.cursor s) as [c |];
      split; try discriminate.
    + intros _. exists ct, c. split; reflexivity.
    + intros _. reflexivity.
    + intros (? & ? & _ & H). discriminate.
    + intros (? & ? & H & _). discriminate.
    + intros (? & ? & H & _). discriminate.
  - intros c. split; reflexivity.
Qed.

(** ** C4: [from_minttyrc] *)

Lemma mintty_slot_table (name : string) :
  mintty_slot name = lookup name mintty_table.
Proof.
  unfold mintty_slot. simpl lookup.
  repeat match goal with
         | |- context [String.eqb name ?k] =>
             destruct (String.eqb_spec name k); [subst; reflexivity |]
         end.
  reflexivity.
Qed.

Lemma split_char_length (sep : ascii) (s : string) :
  List.length (split_char sep s) = S (count_char sep s).
Proof.
  induction s as [| c s IH]; [reflexivity |].
  simpl. destruct (Ascii.eqb c sep); simpl; [rewrite IH; reflexivity |].
  destruct (split_char sep s); simpl in *; [discriminate | exact IH].
Qed.

(** C4 (amended): [from_minttyrc] processes every line of [str::lines],
    empty lines included.  A line is split on every ['=']: unless it has
    exactly one ['='] (so also when it is empty) it fails with
    [InvalidLineFormat].  Otherwise the right part is decoded as a mintty
    color first (its error is returned as is), then the left part is looked
    up among the eighteen key names: an unknown name fails with
    [UnknownColorName], a known one assigns its slot. *)
Theorem minttyrc_line_cases (scheme : ColorScheme) (line : string) (rest : list string) :
  (count_char "=" line <> 1%nat ->
   minttyrc_lines scheme (line :: rest) = Err (InvalidLineFormat line))
  /\ (forall name value,
        line = name ++ "=" ++ value ->
        no_char "=" name = true -> no_char "=" value = true ->
        minttyrc_lines scheme (line :: rest)
        = match from_mintty_color value with
          | Ok color =>
              match lookup name mintty_table with
              | Some sl => minttyrc_lines (Scheme.set_slot sl color scheme) rest
              | None => Err (UnknownColorName name)
              end
          | Err e => Err e
          | Panic => Panic
          end).
Proof.
  split.
  - intros Hc. simpl.
    rewrite split_char_length.
    destruct (count_char "=" line) as [| [| n]]; try reflexivity. lia.
  - intros name value -> Hn Hv. rewrite <- mintty_slot_table.
    cbn [minttyrc_lines String.append].
    rewrite (split_char_app "=" name value Hn), (split_char_single "=" value Hv).
    cbn [List.length Nat.eqb negb nth].
    destruct (from_mintty_color value); reflexivity.
Qed.

Lemma minttyrc_line_cases_witness :
  (count_char "=" "" <> 1%nat
   /\ minttyrc_lines Scheme.default [""] = Err (InvalidLineFormat ""))
  /\ ("Foo=1,2,3" = "Foo" ++ "=" ++ "1,2,3" /\ no_char "=" "Foo" = true
      /\ no_char "=" "1,2,3" = true
      /\ minttyrc_lines Scheme.default ["Foo=1,2,3"] = Err (UnknownColorName "Foo")).
Proof.
  split.
  - split; [discriminate |].
    apply (minttyrc_line_cases Scheme.default "" []). discriminate.
  - split; [reflexivity |]. split; [reflexivity |]. split; [reflexivity |].
    rewrite (proj2 (minttyrc_line_cases Scheme.default "Foo=1,2,3" []) "Foo" "1,2,3")
      by reflexivity.
    reflexivity.
Defined.

(** C4, refuted as stated: an empty line between two valid lines is not
    skipped, and an unknown key with an invalid color fails on the color. *)
Lemma minttyrc_empty_line_fails :
  from_minttyrc ("Black=1,2,3" ++ NL ++ NL ++ "Red=1,2,3") = Err (InvalidLineFormat "")
  /\ from_minttyrc "Foo=x" = Err (InvalidColorFormat "x").
Proof. split; vm_compute; reflexivity. Qed.

(** ** C9: [from_gogh] *)

Lemma is_hex_char_value (c : ascii) :
  is_hex_char c = true -> byte_of c < 128 /\ exists v, hex_value c = Some v.
Proof.
  unfold is_hex_char, hex_value. set (b := byte_of c). intros H.
  destruct ((48 <=? b) && (b <=? 57)) eqn:E1;
    [apply andb_prop in E1 as [_ E1]; split; [lia | eexists; reflexivity] |].
  destruct ((97 <=? b) && (b <=? 102)) eqn:E2;
    [apply andb_prop in E2 as [_ E2]; split; [lia | eexists; reflexivity] |].
  simpl in H. rewrite H.
  apply andb_prop in H as [_ H]. split; [lia | eexists; reflexivity].
Qed.

Lemma hex_pair_hex (a b : ascii) :
  is_hex_char a = true -> is_hex_char b = true ->
  exists v, hex_pair (String a (String b EmptyString)) = Some v.
Proof.
  intros Ha Hb.
  destruct (is_hex_char_value a Ha) as [_ [x Hx]].
  destruct (is_hex_char_value b Hb) as [_ [y Hy]].
  simpl. rewrite Hx, Hy. eexists; reflexivity.
Qed.

Lemma match_at_color (s name value : string) :
  match_at s = Some (name, value) -> exists c, from_gogh_color value = Ok c.
Proof.
  unfold match_at.
  destruct (starts "export " s); [| discriminate].
  destruct (take_name _) as [n after].
  destruct (String.eqb n EmptyString); [discriminate |].
  destruct (starts _ after && _ && _ && _) eqn:E; [| discriminate].
  intros [= <- <-].
  do 10 (destruct after as [| ?c after]; [rewrite !andb_false_r in E; discriminate |]).
  cbn [starts get Nat.leb String.length substring list_ascii_of_string forallb andb] in E.
  repeat match goal with
         | H : _ && _ = true |- _ => apply andb_prop in H as [?H ?H]
         end.
  match goal with H : Ascii.eqb "#" ?c = true |- _ => apply Ascii.eqb_eq in H; subst c end.
  cbn [substring].
  rewrite from_gogh_color_ascii7 by
    (try reflexivity;
     unfold ascii_only; simpl;
     repeat match goal with
            | H : is_hex_char ?c = true |- _ =>
                let Hb := fresh "Hb" in
                apply is_hex_char_value in H as [Hb _]; apply Z.ltb_lt in Hb; rewrite Hb
            end; reflexivity).
  unfold gogh_color_spec. cbn [substring].
  repeat match goal with
         | H : is_hex_char ?c = true |- _ => apply is_hex_char_value in H as [_ [? ?H]]
         end.
  unfold hex_pair.
  repeat match goal with H : hex_value _ = Some _ |- _ => rewrite H; clear H end.
  eexists; reflexivity.
Qed.

Lemma captures_unfold (s : string) :
  captures s = match match_at s with
               | Some m => Some m
               | None => match s with
                         | EmptyString => None
                         | String _ rest => captures rest
                         end
               end.
Proof. destruct s; reflexivity. Qed.

Lemma captures_color (s name value : string) :
  captures s = Some (name, value) -> exists c, from_gogh_color value = Ok c.
Proof.
  induction s as [| ch s IH]; intros H; rewrite captures_unfold in H;
    destruct (match_at _) as [[n v] |] eqn:E.
  - injection H as <- <-. exact (match_at_color _ _ _ E).
  - discriminate.
  - injection H as <- <-. exact (match_at_color _ _ _ E).
  - exact (IH H).
Qed.

Lemma gogh_line_ok (scheme : ColorScheme) (line : string) :
  exists sc, gogh_line scheme line = Ok sc.
Proof.
  unfold gogh_line.
  destruct (captures line) as [[name value] |] eqn:Hc; [| eexists; reflexivity].
  destruct (captures_color _ _ _ Hc) as [c Hcol]. rewrite Hcol. simpl.
  destruct (gogh_slot name); eexists; reflexivity.
Qed.

Lemma gogh_slot_none (name : string) :
  ~ In name gogh_names -> gogh_slot name = None.
Proof.
  intros H.
  assert (Hin : forall x, existsb (String.eqb x) gogh_names = true -> In x gogh_names).
  { intros x Hx. apply existsb_exists in Hx as [y [Hy Hxy]].
    apply String.eqb_eq in Hxy. subst. exact Hy. }
  unfold gogh_slot.
  repeat match goal with
         | |- context [String.eqb name ?k] =>
             destruct (String.eqb_spec name k) as [-> |];
             [exfalso; apply H, Hin; reflexivity |]
         end.
  reflexivity.
Qed.

(** C9: [from_gogh] never fails.  A line with no match of
    [export ([A-Z0-9_]+)="(#[0-9a-fA-F]{6})"], or whose name is not one of
    [FOREGROUND_COLOR], [BACKGROUND_COLOR], [COLOR_01] .. [COLOR_16], leaves
    the scheme unchanged; a recognized name assigns the decoded color to its
    slot, [COLOR_01] .. [COLOR_08] to the eight normal ANSI slots in order and
    [COLOR_09] .. [COLOR_16] to the eight bright slots in the same order. *)
Theorem from_gogh_permissive :
  (forall content, exists sc, from_gogh content = Ok sc)
  /\ (forall scheme line, captures line = None -> gogh_line scheme line = Ok scheme)
  /\ (forall scheme line name value,
        captures line = Some (name, value) -> ~ In name gogh_names ->
        gogh_line scheme line = Ok scheme)
  /\ (forall scheme line name value sl,
        captures line = Some (name, value) -> gogh_slot name = Some sl ->
        exists c, from_gogh_color value = Ok c
                  /\ gogh_line scheme line = Ok (Scheme.set_slot sl c scheme))
  /\ gogh_slot "FOREGROUND_COLOR" = Some Scheme.Foreground
  /\ gogh_slot "BACKGROUND_COLOR" = Some Scheme.Background
  /\ (forall i, 1 <= i <= 8 ->
        gogh_slot (gogh_color_name i)
          = Some (nth (Z.to_nat (i - 1)) normal_slots Scheme.Black)
        /\ gogh_slot (gogh_color_name (i + 8))
          = Some (nth (Z.to_nat (i - 1)) bright_slots Scheme.Black)).
Proof.
  split; [| split; [| split; [| split; [| split; [| split]]]]].
  - intros content. unfold from_gogh.
    generalize Scheme.default. induction (lines content) as [| l ls IH]; intros sc.
    + eexists; reflexivity.
    + simpl. destruct (gogh_line_ok sc l) as [sc' ->]. simpl. apply IH.
  - intros scheme line H. unfold gogh_line. rewrite H. reflexivity.
  - intros scheme line name value Hc Hn. unfold gogh_line. rewrite Hc.
    destruct (captures_color _ _ _ Hc) as [c Hcol]. rewrite Hcol. simpl.
    rewrite (gogh_slot_none name Hn). reflexivity.
  - intros scheme line name value sl Hc Hs.
    destruct (captures_color _ _ _ Hc) as [c Hcol]. exists c. split; [exact Hcol |].
    unfold gogh_line. rewrite Hc, Hcol. simpl. rewrite Hs. reflexivity.
  - reflexivity.
  - reflexivity.
  - intros i Hi.
    assert (i = 1 \/ i = 2 \/ i = 3 \/ i = 4 \/ i = 5 \/ i = 6 \/ i = 7 \/ i = 8)
      as Hcases by lia.
    repeat destruct Hcases as [-> | Hcases]; try (subst i); split; reflexivity.
Qed.

Lemma from_gogh_permissive_witness :
  from_gogh ("# exports" ++ NL ++ "export PROFILE_NAME=" ++ String dquote "#123456"
             ++ String dquote EmptyString ++ NL
             ++ "export COLOR_10=" ++ String dquote "#ff0010" ++ String dquote EmptyString)
  = Ok (Scheme.set_slot Scheme.BrightRed (mkColor 255 0 16) Scheme.default)
  /\ (1 <= 2 <= 8 /\ gogh_slot (gogh_color_name 2) = Some Scheme.Red).
Proof.
  split.
  - vm_compute. reflexivity.
  - split; [lia |].
    destruct from_gogh_permissive as (_ & _ & _ & _ & _ & _ & H).
    exact (proj1 (H 2 ltac:(lia))).
Defined.

(** ** C5: component keys and unknown slot names in [from_iterm] *)

Lemma bind_assoc {E A B C} (m : outcome E A) (k : A -> outcome E B)
  (g : B -> outcome E C) :
  (x <- (y <- m ;; k y) ;; g x) = (y <- m ;; (x <- k y ;; g x)).
Proof. destruct m; reflexivity. Qed.

Lemma iterm_components_app (ps : list (Element * Element)) (tail : list Element)
  (color : Color) :
  iterm_components (flat_pairs ps ++ tail) color
  = (c <- iterm_components (flat_pairs ps) color ;; iterm_components tail c).
Proof.
  unfold flat_pairs. revert color.
  induction ps as [| [a b] ps IH]; intros color; [reflexivity |].
  cbn [flat_map fst snd app iterm_components].
  destruct (extract_text a) as [name | e |]; cbn [bind]; [| reflexivity | reflexivity].
  repeat match goal with
         | |- context [if String.eqb name ?k then _ else _] =>
             destruct (String.eqb name k)
         end;
    try (destruct (extract_real_color b); cbn [bind]); try apply IH; reflexivity.
Qed.

Lemma iterm_components_unknown (k v : Element) (rest : list Element) (color : Color)
  (comp : string) :
  extract_text k = Ok comp -> ~ In comp component_names ->
  iterm_components (k :: v :: rest) color = Err (UnknownColorComponent comp).
Proof.
  intros Hk Hn. cbn [iterm_components]. rewrite Hk. cbn [bind].
  repeat match goal with
         | |- context [String.eqb comp ?c] =>
             destruct (String.eqb_spec comp c) as [-> |];
             [exfalso; apply Hn; unfold component_names;
              repeat (first [left; reflexivity | right]) |]
         end.
  reflexivity.
Qed.

Lemma iterm_components_skip (k v : Element) (rest : list Element) (color : Color)
  (comp : string) :
  extract_text k = Ok comp -> comp = "Alpha Component" \/ comp = "Color Space" ->
  iterm_components (k :: v :: rest) color = iterm_components rest color.
Proof.
  intros Hk [-> | ->]; cbn [iterm_components]; rewrite Hk; reflexivity.
Qed.

(** C5 (as the code behaves): the dictionary of every top-level key/dict
    pair is decoded, whether its key names a slot or not.  A pair whose key
    is not one of the 20 slot names leaves the scheme unchanged once its
    dictionary decodes.  If the component pairs before a given one decode and
    that pair's key is not one of [Red Component], [Green Component],
    [Blue Component], [Alpha Component], [Color Space], the pair fails with
    [UnknownColorComponent], whatever the slot name.  [Alpha Component] and
    [Color Space] pairs are skipped, and a trailing unpaired element is
    ignored. *)
Theorem iterm_component_strictness :
  (forall scheme key value name c,
      extract_text key = Ok name -> iterm_slot name = None ->
      iterm_components (element_nodes value) color_default = Ok c ->
      iterm_pair scheme key value = Ok scheme)
  /\ (forall scheme key value name ps k v rest c0 comp,
      extract_text key = Ok name ->
      element_nodes value = (flat_pairs ps ++ k :: v :: rest)%list ->
      iterm_components (flat_pairs ps) color_default = Ok c0 ->
      extract_text k = Ok comp -> ~ In comp component_names ->
      iterm_pair scheme key value = Err (UnknownColorComponent comp))
  /\ (forall k v rest color comp,
      extract_text k = Ok comp -> comp = "Alpha Component" \/ comp = "Color Space" ->
      iterm_components (k :: v :: rest) color = iterm_components rest color)
  /\ (forall k color, iterm_components [k] color = Ok color).
Proof.
  split; [| split; [| split]].
  - intros scheme key value name c Hkey Hslot Hc.
    unfold iterm_pair. rewrite Hkey. cbn [bind]. rewrite Hc. cbn [bind].
    rewrite Hslot. reflexivity.
  - intros scheme key value name ps k v rest c0 comp Hkey Hnodes Hpre Hk Hn.
    unfold iterm_pair. rewrite Hkey. cbn [bind].
    rewrite Hnodes, iterm_components_app, Hpre. cbn [bind].
    rewrite (iterm_components_unknown k v rest c0 comp Hk Hn). reflexivity.
  - exact iterm_components_skip.
  - reflexivity.
Qed.

Lemma iterm_component_strictness_witness :
  iterm_pair Scheme.default (xel "key" [CharacterNode "Ansi 1 Color"])
    (xel "dict" [xtext "key" "Alpha Component"; xtext "real" "1";
                 xtext "key" "Tint"; xtext "real" "1"])
  = Err (UnknownColorComponent "Tint").
Proof.
  destruct iterm_component_strictness as (_ & H & _).
  apply (H Scheme.default _ _ "Ansi 1 Color"
           [(xel "key" [CharacterNode "Alpha Component"], xel "real" [CharacterNode "1"])]
           (xel "key" [CharacterNode "Tint"]) (xel "real" [CharacterNode "1"]) [] color_default
           "Tint"); try reflexivity.
  unfold component_names. simpl. intuition discriminate.
Defined.

(** The unknown top-level key [Bogus] is not ignored: its dictionary is
    decoded and its unknown component fails the parse; and a trailing
    unknown component key inside a recognized slot is ignored. *)
Lemma from_iterm_unknown_slot_fails :
  from_iterm_root (plist [xtext "key" "Bogus";
                          ElementNode (xel "dict" [xtext "key" "Tint"; xtext "real" "1"])])
  = Err (UnknownColorComponent "Tint")
  /\ from_iterm_root (plist [xtext "key" "Ansi 1 Color";
                             ElementNode (xel "dict" [xtext "key" "Red Component";
                                                      xtext "real" "1"; xtext "key" "Tint"])])
     = Ok (Scheme.set_slot Scheme.Red (mkColor 255 0 0) Scheme.default).
Proof. split; vm_compute; reflexivity. Qed.

(** ** C7: the top-level key/dict pairs of [from_iterm] *)

Lemma is_named_key_dict (d : Element) :
  is_named "dict" d = true -> is_named "key" d = false.
Proof.
  destruct d as [n ns cs]. unfold is_named. cbn [el_name el_ns].
  intros H. apply andb_prop in H as [H _]. apply String.eqb_eq in H. subst.
  reflexivity.
Qed.

Lemma child_named_other (name : string) (j : list Xml) :
  name = "key" \/ name = "dict" -> forallb no_key_dict j = true ->
  flat_map (child_named name) j = [].
Proof.
  intros Hname. induction j as [| x j IH]; intros H; [reflexivity |].
  cbn [forallb] in H. apply andb_prop in H as [Hx Hj].
  cbn [flat_map]. rewrite (IH Hj), app_nil_r.
  destruct x as [c | | | |]; try reflexivity.
  cbn [no_key_dict] in Hx. apply negb_true_iff, orb_false_iff in Hx as [Hk Hd].
  unfold child_named. destruct Hname as [-> | ->]; [rewrite Hk | rewrite Hd]; reflexivity.
Qed.

Lemma child_named_entries (entries : list Entry) (tail : list Xml) :
  forallb entry_ok entries = true -> forallb no_key_dict tail = true ->
  flat_map (child_named "key") (List.concat (map entry_children entries) ++ tail)
    = map (fun en => fst (entry_pair en)) entries
  /\ flat_map (child_named "dict") (List.concat (map entry_children entries) ++ tail)
    = map (fun en => snd (entry_pair en)) entries.
Proof.
  intros Hen Ht. rewrite !flat_map_app.
  rewrite !(child_named_other _ tail) by (auto || tauto). rewrite !app_nil_r.
  induction entries as [| [[[j1 k] j2] d] entries IH]; [split; reflexivity |].
  cbn [forallb entry_ok] in Hen.
  apply andb_prop in Hen as [He Hen]. apply andb_prop in He as [He Hd].
  apply andb_prop in He as [He Hj2]. apply andb_prop in He as [Hj1 Hk].
  destruct (IH Hen) as [IHk IHd].
  cbn [map List.concat entry_children entry_pair fst snd].
  rewrite !flat_map_app. cbn [flat_map]. rewrite !flat_map_app. cbn [flat_map].
  rewrite !(child_named_other _ j1), !(child_named_other _ j2) by (auto || tauto).
  rewrite IHk, IHd.
  unfold child_named.
  rewrite Hk, Hd, (is_named_key_dict d Hd).
  assert (Hkd : is_named "dict" k = false).
  { destruct k as [n ns cs]. unfold is_named in *. cbn [el_name el_ns] in *.
    apply andb_prop in Hk as [Hk _]. apply String.eqb_eq in Hk. subst. reflexivity. }
  rewrite Hkd. split; reflexivity.
Qed.

Lemma combine_map_pairs {A B C} (f : A -> B) (g : A -> C) (l : list A) :
  combine (map f l) (map g l) = map (fun x => (f x, g x)) l.
Proof. induction l as [| x l IH]; cbn; [reflexivity | rewrite IH; reflexivity]. Qed.

Lemma child_named_item (it : Item) :
  item_ok it = true ->
  flat_map (child_named "key") (item_children it) = [item_key it]
  /\ flat_map (child_named "dict") (item_children it) = item_dicts it.
Proof.
  destruct it as [en | j1 k j2]; intros H.
  - assert (H1 : forallb entry_ok [en] = true)
      by (cbn [forallb]; cbn [item_ok] in H; rewrite H; reflexivity).
    destruct (child_named_entries [en] [] H1 eq_refl) as [Hk Hd].
    cbn [map List.concat] in Hk, Hd. rewrite !app_nil_r in Hk, Hd.
    cbn [item_children item_key item_dicts]. rewrite Hk, Hd. split; reflexivity.
  - cbn [item_ok] in H. apply andb_prop in H as [H Hj2]. apply andb_prop in H as [Hj1 Hk].
    cbn [item_children item_key item_dicts]. rewrite !flat_map_app. cbn [flat_map].
    rewrite !(child_named_other _ j1), !(child_named_other _ j2) by (auto || tauto).
    unfold child_named. rewrite Hk.
    assert (Hkd : is_named "dict" k = false).
    { destruct k as [n ns cs]. unfold is_named in *. cbn [el_name el_ns] in *.
      apply andb_prop in Hk as [Hk _]. apply String.eqb_eq in Hk. subst. reflexivity. }
    rewrite Hkd. split; reflexivity.
Qed.

Lemma child_named_items (items : list Item) (tail : list Xml) :
  forallb item_ok items = true -> forallb no_key_dict tail = true ->
  flat_map (child_named "key") (List.concat (map item_children items) ++ tail)
    = map item_key items
  /\ flat_map (child_named "dict") (List.concat (map item_children items) ++ tail)
    = flat_map item_dicts items.
Proof.
  intros Hit Ht. rewrite !flat_map_app.
  rewrite !(child_named_other _ tail) by (auto || tauto). rewrite !app_nil_r.
  induction items as [| it items IH]; [split; reflexivity |].
  cbn [forallb] in Hit. apply andb_prop in Hit as [Hi Hit].
  destruct (IH Hit) as [IHk IHd]. destruct (child_named_item it Hi) as [Hk Hd].
  cbn [map List.concat flat_map]. rewrite !flat_map_app, IHk, IHd, Hk, Hd.
  split; reflexivity.
Qed.

Lemma nth_error_combine_pair {A B} (l1 : list A) (l2 : list B) (n : nat) :
  nth_error (combine l1 l2) n
  = match nth_error l1 n, nth_error l2 n with
    | Some a, Some b => Some (a, b)
    | _, _ => None
    end.
Proof.
  revert l2 n. induction l1 as [| a l1 IH]; intros l2 n.
  - destruct n; reflexivity.
  - destruct l2 as [| b l2], n as [| n]; cbn [combine nth_error]; try reflexivity.
    + destruct (nth_error l1 n); reflexivity.
    + apply IH.
Qed.

Lemma nth_error_app_middle {A} (l l' : list A) (a : A) :
  nth_error (l ++ a :: l') (List.length l) = Some a.
Proof. induction l as [| x l IH]; [reflexivity | exact IH]. Qed.

Lemma item_dicts_paired (entries : list Entry) :
  flat_map item_dicts (map Paired entries) = map (fun en => snd (entry_pair en)) entries.
Proof.
  induction entries as [| en entries IH]; [reflexivity |].
  cbn [map flat_map item_dicts List.app]. rewrite IH. reflexivity.
Qed.

Lemma orphan_count_length (pre : list Item) :
  (List.length (flat_map item_dicts pre) + orphan_count pre = List.length pre)%nat.
Proof.
  unfold orphan_count. induction pre as [| [en | j1 k j2] pre IH]; [reflexivity | |];
    cbn [flat_map item_dicts filter List.app List.length] in *; lia.
Qed.

(** C7 (as the code behaves): [from_iterm] pairs the i-th [<key>] child of
    the root dictionary with its i-th [<dict>] child.  For a root
    dictionary made of items, each an entry (other nodes, a [<key>], other
    nodes and that slot's own [<dict>]) or an orphan [<key>] with no
    [<dict>] of its own (other nodes around it), followed by other nodes
    (other nodes being neither [<key>] nor [<dict>] elements): the pairs
    are the keys of all items zipped with the dictionaries of the entries,
    and the scheme is built from these pairs in order; when every item is
    an entry, each key is paired with its own dictionary; and the key of an
    entry preceded by [r] orphan keys receives the dictionary written [r]
    entries after its own, or none when there is no such dictionary. *)
Theorem iterm_key_dicts_entries (rname : string) (rns : option string)
  (items : list Item) (tail : list Xml) :
  forallb item_ok items = true -> forallb no_key_dict tail = true ->
  let children := (List.concat (map item_children items) ++ tail)%list in
  iterm_key_dicts (Elem rname rns children)
    = combine (map item_key items) (flat_map item_dicts items)
  /\ from_iterm_root (plist children)
    = iterm_pairs Scheme.default (combine (map item_key items) (flat_map item_dicts items))
  /\ (forall entries, items = map Paired entries ->
      iterm_key_dicts (Elem rname rns children) = map entry_pair entries)
  /\ (forall pre en post, items = (pre ++ Paired en :: post)%list ->
      nth_error (flat_map item_dicts items) (List.length (flat_map item_dicts pre))
        = Some (snd (entry_pair en))
      /\ nth_error (iterm_key_dicts (Elem rname rns children)) (List.length pre)
        = option_map (fun d => (fst (entry_pair en), d))
            (nth_error (flat_map item_dicts items)
                       (List.length (flat_map item_dicts pre) + orphan_count pre))).
Proof.
  intros Hit Ht children.
  assert (Hpairs : forall n ns, iterm_key_dicts (Elem n ns children)
                   = combine (map item_key items) (flat_map item_dicts items)).
  { intros n ns. unfold iterm_key_dicts, get_children, children. cbn [el_children].
    destruct (child_named_items items tail Hit Ht) as [-> ->]. reflexivity. }
  split; [apply Hpairs |]. split.
  { unfold from_iterm_root.
    change (get_children (plist children) "dict") with [Elem "dict" None children].
    cbv beta iota. rewrite (Hpairs "dict" None). reflexivity. }
  split.
  - intros entries ->. rewrite Hpairs, map_map.
    rewrite item_dicts_paired, combine_map_pairs.
    apply map_ext. intros [[[j1 k] j2] d]. reflexivity.
  - intros pre en post ->.
    assert (Hd : nth_error (flat_map item_dicts (pre ++ Paired en :: post))
                   (List.length (flat_map item_dicts pre)) = Some (snd (entry_pair en))).
    { rewrite flat_map_app. cbn [flat_map item_dicts List.app].
      apply nth_error_app_middle. }
    split; [exact Hd |].
    rewrite Hpairs, nth_error_combine_pair, orphan_count_length.
    rewrite map_app. cbn [map item_key].
    rewrite <- (length_map item_key pre), nth_error_app_middle.
    destruct (nth_error (flat_map item_dicts (pre ++ Paired en :: post)) (List.length pre));
      reflexivity.
Qed.

Lemma iterm_key_dicts_entries_witness :
  forallb item_ok
    [Orphan [] (xel "key" [CharacterNode "Ansi 0 Color"]) [xtext "string" "meta"];
     Paired ([], xel "key" [CharacterNode "Ansi 1 Color"], [],
             xel "dict" [xtext "key" "Red Component"; xtext "real" "1"])] = true
  /\ forallb no_key_dict [CommentNode "end"] = true
  /\ iterm_key_dicts
       (Elem "dict" None
          (List.concat (map item_children
             [Orphan [] (xel "key" [CharacterNode "Ansi 0 Color"]) [xtext "string" "meta"];
              Paired ([], xel "key" [CharacterNode "Ansi 1 Color"], [],
                      xel "dict" [xtext "key" "Red Component"; xtext "real" "1"])])
           ++ [CommentNode "end"])%list)
     = [(xel "key" [CharacterNode "Ansi 0 Color"],
         xel "dict" [xtext "key" "Red Component"; xtext "real" "1"])].
Proof.
  split; [reflexivity | split; [reflexivity |]].
  destruct (iterm_key_dicts_entries "dict" None
              [Orphan [] (xel "key" [CharacterNode "Ansi 0 Color"]) [xtext "string" "meta"];
               Paired ([], xel "key" [CharacterNode "Ansi 1 Color"], [],
                       xel "dict" [xtext "key" "Red Component"; xtext "real" "1"])]
              [CommentNode "end"] eq_refl eq_refl) as [H _].
  etransitivity; [exact H |]. reflexivity.
Defined.

(** A [<key>Name</key><string>x</string>] metadata pair before a slot
    shifts the pairing: [Ansi 0 Color] receives the dictionary written for
    [Ansi 1 Color], and [Ansi 1 Color] receives none. *)
Lemma from_iterm_metadata_key_shifts :
  from_iterm_root (plist [xtext "key" "Ansi 0 Color"; xtext "string" "meta";
                          xtext "key" "Ansi 1 Color";
                          ElementNode (xel "dict" [xtext "key" "Red Component";
                                                   xtext "real" "1"])])
  = Ok (Scheme.set_slot Scheme.Black (mkColor 255 0 0) Scheme.default).
Proof. vm_compute. reflexivity. Qed.

(** ** C6: float components *)

Lemma f32_round_255_pow2 (k : Z) :
  0 <= k -> f32_round (255 * 2 ^ k) (2 ^ k) = Some (16711680, -16).
Proof.
  intros Hk. assert (HK : 0 < 2 ^ k) by (apply Z.pow_pos_nonneg; lia).
  unfold f32_round.
  rewrite Z.log2_mul_pow2 by lia. rewrite Z.log2_pow2 by lia.
  replace (k + Z.log2 255 - k) with 7 by (change (Z.log2 255) with 7; lia).
  assert (Hge : ge_pow2 (255 * 2 ^ k) (2 ^ k) 7 = true).
  { unfold ge_pow2. change (0 <=? 7) with true. cbv beta iota.
    apply Z.leb_le. change (2 ^ 7) with 128. lia. }
  rewrite Hge. cbv zeta.
  replace (Z.max (7 - 23) (-149)) with (-16) by reflexivity.
  cbn [Z.leb Z.compare Z.opp].
  unfold round_half_even.
  replace (255 * 2 ^ k * 2 ^ 16) with (16711680 * 2 ^ k) by (change (2 ^ 16) with 65536; lia).
  rewrite Z.div_mul, Z.mod_mul by lia.
  replace (2 * 0 <? 2 ^ k) with true by (symmetry; apply Z.ltb_lt; lia).
  reflexivity.
Qed.

Lemma extract_real_color_text (name : string) (ns : option string) (t : string)
  (rest : list Xml) :
  extract_real_color (Elem name ns (CharacterNode t :: rest))
  = match parse_f32 t with
    | Some v => Ok (f32_as_u8 (f32_mul_255 v))
    | None => Err ParseFloat
    end.
Proof. reflexivity. Qed.

(** C6: a recognized component whose text parses as the binary32 value [v]
    is stored as [(v * 255.0) as u8]: the product rounded to binary32, then
    truncated toward zero.  Every binary32 representation of [1.0]
    ([2^k * 2^-k]) yields 255 and every zero yields 0; ["1.0"] and ["0.0"]
    parse to these values, and ["0.5"] gives 127 (127.5 truncated). *)
Theorem extract_real_color_truncates :
  (forall name ns t rest v,
      parse_f32 t = Some v ->
      extract_real_color (Elem name ns (CharacterNode t :: rest))
      = Ok (f32_as_u8 (f32_mul_255 v)))
  /\ (forall k, 0 <= k -> f32_as_u8 (f32_mul_255 (F32Fin false (2 ^ k) (- k))) = 255)
  /\ (forall neg e, f32_as_u8 (f32_mul_255 (F32Fin neg 0 e)) = 0)
  /\ parse_f32 "1.0" = Some (F32Fin false (2 ^ 23) (-23))
  /\ parse_f32 "1" = Some (F32Fin false (2 ^ 23) (-23))
  /\ parse_f32 "0.0" = Some (F32Fin false 0 0)
  /\ extract_real_color (xel "real" [CharacterNode "0.5"]) = Ok 127.
Proof.
  split; [| split; [| split; [| split; [| split; [| split]]]]].
  - intros name ns t rest v Hv. rewrite extract_real_color_text, Hv. reflexivity.
  - intros k Hk. assert (HK : 0 < 2 ^ k) by (apply Z.pow_pos_nonneg; lia).
    unfold f32_mul_255.
    replace (2 ^ k =? 0) with false by (symmetry; apply Z.eqb_neq; lia).
    rewrite (Z.max_r (- k) 0) by lia. rewrite (Z.max_l (- - k) 0) by lia.
    rewrite Z.opp_involutive, Z.pow_0_r, Z.mul_1_r, f32_round_255_pow2 by exact Hk.
    reflexivity.
  - intros neg e. destruct neg; reflexivity.
  - vm_compute. reflexivity.
  - vm_compute. reflexivity.
  - vm_compute. reflexivity.
  - vm_compute. reflexivity.
Qed.

Lemma extract_real_color_truncates_witness :
  extract_real_color (xel "real" [CharacterNode "0.2"]) = Ok 51
  /\ f32_as_u8 (f32_mul_255 (F32Fin false (2 ^ 23) (-23))) = 255.
Proof.
  destruct extract_real_color_truncates as (H1 & H2 & _).
  split.
  - etransitivity; [apply (H1 "real" None "0.2" [] (F32Fin false 13421773 (-26)));
                    vm_compute; reflexivity |].
    vm_compute. reflexivity.
  - exact (H2 23 ltac:(lia)).
Defined.

(** ** C1 and C2: [download_all] *)

Section DownloadProperties.

Variable cache_dir : option string.
Variable create_dir_ok : bool.
Variable http_get : string -> option string.
Variable parse_listing : string -> option (list (option string)).
Variable write_ok : string -> bool.

Lemma download_color_scheme_no_start (cache : string) (p : Provider)
  (f : string * string) (urls : list string) :
  ~ In (JoinStart urls) (fst (download_color_scheme http_get write_ok cache p f)).
Proof.
  destruct f as [url name]. unfold download_color_scheme.
  destruct (http_get url); [destruct (write_ok _) |]; cbn; intuition discriminate.
Qed.

Lemma join_all_no_start (cache : string) (p : Provider)
  (futs : list (string * string)) (urls : list string) :
  ~ In (JoinStart urls) (fst (join_all http_get write_ok cache p futs)).
Proof.
  induction futs as [| f rest IH]; cbn [join_all]; [cbn; intuition discriminate |].
  pose proof (download_color_scheme_no_start cache p f urls) as Hf.
  destruct (download_color_scheme http_get write_ok cache p f) as [evs r].
  cbn [fst] in Hf.
  destruct r.
  - destruct (join_all http_get write_ok cache p rest) as [evs' r'].
    cbn [fst] in *. rewrite in_app_iff. tauto.
  - cbn [fst]. rewrite in_app_iff. cbn. intuition discriminate.
  - exact Hf.
Qed.

Lemma download_loop_batches (cache : string) (p : Provider)
  (items : list (option string)) (futures : list (string * string)) (urls : list string) :
  (List.length futures <= 10)%nat ->
  In (JoinStart urls) (fst (download_loop http_get write_ok cache p items futures)) ->
  List.length urls = 11%nat.
Proof.
  revert futures. induction items as [| item rest IH]; intros futures Hlen Hin.
  - destruct Hin.
  - destruct item as [filename |]; [| destruct Hin].
    cbn [download_loop] in Hin.
    destruct (starts_with_char "_" filename || negb (ends_with filename (extension p))).
    + exact (IH futures Hlen Hin).
    + set (futs := (futures ++ [(individual_url p (remove_all (extension p) filename),
                                 remove_all (extension p) filename)])%list) in Hin.
      assert (Hfl : List.length futs = S (List.length futures))
        by (unfold futs; rewrite length_app; cbn; lia).
      destruct (Nat.ltb_spec 10 (List.length futs)) as [Hbig | Hsmall].
      * unfold try_join_all in Hin.
        pose proof (join_all_no_start cache p futs urls) as Hno.
        destruct (join_all http_get write_ok cache p futs) as [evs r].
        cbn [fst] in Hno.
        destruct r.
        -- pose proof (IH [] ltac:(cbn; lia)) as IHn.
           destruct (download_loop http_get write_ok cache p rest []) as [evs' r'].
           cbn [fst] in Hin, IHn. rewrite <- app_comm_cons in Hin.
           destruct Hin as [Heq | Hin].
           ++ injection Heq as <-. rewrite length_map. lia.
           ++ apply in_app_iff in Hin as [Hin | Hin]; [contradiction | exact (IHn Hin)].
        -- cbn [fst] in Hin. destruct Hin as [Heq | Hin]; [| contradiction].
           injection Heq as <-. rewrite length_map. lia.
        -- cbn [fst] in Hin. destruct Hin as [Heq | Hin]; [| contradiction].
           injection Heq as <-. rewrite length_map. lia.
      * exact (IH futs ltac:(lia) Hin).
Qed.

Section AllSucceed.

Hypothesis get_ok : forall url, http_get url <> None.
Hypothesis write_succeeds : forall path, write_ok path = true.



End AllSucceed.

(** C1 (as the code behaves): every [try_join_all] of [download_all] puts
    exactly 11 fetches in flight together, since the batch is joined only
    once [futures.len() > 10]. *)
Theorem download_all_batches_of_eleven (p : Provider) (urls : list string) :
  In (JoinStart urls)
     (fst (download_all cache_dir create_dir_ok http_get parse_listing write_ok p)) ->
  List.length urls = 11%nat.
Proof.
  unfold download_all.
  destruct cache_dir as [cache |]; [| cbn; tauto].
  destruct (negb create_dir_ok); [cbn; intuition discriminate |].
  destruct (http_get (list_url p)) as [body |]; [| cbn; intuition discriminate].
  destruct (parse_listing body) as [items |]; [| cbn; intuition discriminate].
  pose proof (download_loop_batches cache p items [] urls ltac:(cbn; lia)) as H.
  destruct (download_loop http_get write_ok cache p items []) as [evs r].
  cbn [fst] in *. intros [Heq | [Heq | Hin]]; [discriminate | discriminate | exact (H Hin)].
Qed.


End DownloadProperties.

Lemma download_all_batches_of_eleven_witness :
  In (JoinStart (gogh_urls 11))
     (fst (download_all (Some "/c") true ok_get (listing_of (gogh_files 11)) ok_write
                        provider_gogh))
  /\ List.length (gogh_urls 11) = 11%nat.
Proof.
  assert (Hin : In (JoinStart (gogh_urls 11))
                   (fst (download_all (Some "/c") true ok_get (listing_of (gogh_files 11))
                                      ok_write provider_gogh))).
  { vm_compute. right. right. left. reflexivity. }
  split; [exact Hin |].
  exact (download_all_batches_of_eleven (Some "/c") true ok_get (listing_of (gogh_files 11))
           ok_write provider_gogh (gogh_urls 11) Hin).
Defined.


(** * Properties of the rest of the code *)

(** ** Strings: lengths, cancellation, slices of an append *)

Lemma str_length_app (a b : string) :
  String.length (a ++ b) = (String.length a + String.length b)%nat.
Proof. induction a as [| c a IH]; cbn; [reflexivity | rewrite IH; reflexivity]. Qed.

Lemma str_app_assoc (a b c : string) : (a ++ b) ++ c = a ++ (b ++ c).
Proof. induction a as [| x a IH]; cbn; [reflexivity | rewrite IH; reflexivity]. Qed.

Lemma str_app_nil_r (a : string) : a ++ EmptyString = a.
Proof. induction a as [| x a IH]; cbn; [reflexivity | rewrite IH; reflexivity]. Qed.

Lemma app_cancel_len (a b x y : string) :
  String.length a = String.length b -> a ++ x = b ++ y -> a = b /\ x = y.
Proof.
  revert b. induction a as [| c a IH]; intros b Hl H; destruct b as [| d b];
    cbn in *; try discriminate; [split; [reflexivity | exact H] |].
  injection H as <- H. injection Hl as Hl.
  destruct (IH b Hl H) as [-> ->]. split; reflexivity.
Qed.

Lemma app_cancel_l (a x y : string) : a ++ x = a ++ y -> x = y.
Proof. intros H. exact (proj2 (app_cancel_len a a x y eq_refl H)). Qed.

Lemma app_cancel_suffix (a b x y : string) :
  String.length x = String.length y -> a ++ x = b ++ y -> a = b /\ x = y.
Proof.
  intros Hl H. apply app_cancel_len; [| exact H].
  assert (Ht := f_equal String.length H). rewrite !str_length_app in Ht. lia.
Qed.

Lemma substring_zero_len (n : nat) (s : string) : substring n 0 s = EmptyString.
Proof.
  revert n. induction s as [| c s IH]; intros [| n]; cbn; auto.
Qed.

Lemma substring_prefix (a b : string) : substring 0 (String.length a) (a ++ b) = a.
Proof.
  induction a as [| c a IH]; cbn; [apply substring_zero_len | rewrite IH; reflexivity].
Qed.

Lemma substring_skip (a b : string) (m : nat) :
  substring (String.length a) m (a ++ b) = substring 0 m b.
Proof.
  induction a as [| c a IH]; cbn; [reflexivity | exact IH].
Qed.

Lemma substring_whole (b : string) : substring 0 (String.length b) b = b.
Proof. rewrite <- (str_app_nil_r b) at 2. rewrite substring_prefix. reflexivity. Qed.

Lemma substring_split (s : string) (k : nat) :
  (k <= String.length s)%nat ->
  substring 0 k s ++ substring k (String.length s - k) s = s.
Proof.
  revert k. induction s as [| c s IH]; intros [| k] Hk; cbn in *.
  - reflexivity.
  - lia.
  - rewrite substring_whole. reflexivity.
  - rewrite IH by lia. reflexivity.
Qed.

Lemma ends_with_app (a b : string) : ends_with (a ++ b) b = true.
Proof.
  unfold ends_with. rewrite str_length_app.
  replace (String.length a + String.length b - String.length b)%nat
    with (String.length a) by lia.
  rewrite substring_skip, substring_whole, String.eqb_refl.
  apply andb_true_intro. split; [apply Nat.leb_le; lia | reflexivity].
Qed.

Lemma ends_with_spec (s suffix : string) :
  ends_with s suffix = true -> exists a, s = a ++ suffix.
Proof.
  unfold ends_with. intros H. apply andb_prop in H as [Hl He].
  apply Nat.leb_le in Hl. apply String.eqb_eq in He.
  set (k := (String.length s - String.length suffix)%nat) in *.
  exists (substring 0 k s).
  assert (Hs : String.length suffix = (String.length s - k)%nat) by (unfold k; lia).
  transitivity (substring 0 k s ++ substring k (String.length s - k) s);
    [symmetry; apply substring_split; unfold k; lia |].
  rewrite <- Hs, He. reflexivity.
Qed.

(** Two suffixes ending in different bytes are never both suffixes. *)
Lemma ends_with_last_differs (s p q : string) (c d : ascii) :
  c <> d -> ends_with s (p ++ String c EmptyString) = true ->
  ends_with s (q ++ String d EmptyString) = false.
Proof.
  intros Hcd H1. destruct (ends_with s (q ++ String d EmptyString)) eqn:H2; [| reflexivity].
  exfalso. apply ends_with_spec in H1 as [a1 ->]. apply ends_with_spec in H2 as [a2 H2].
  rewrite <- !str_app_assoc in H2.
  apply app_cancel_suffix in H2 as [_ H2]; [| reflexivity].
  injection H2 as H2. exact (Hcd H2).
Qed.

(** ** [ColorSchemeFormat::from_filename] and the format choice of [convert] *)

(** The input format is chosen by the extension of the file name, whatever
    comes before it; an [-i] value other than [iterm], [mintty] and [gogh]
    is silently ignored and the file name decides. *)
Theorem format_from_filename_suffix (base : string) :
  format_from_filename (base ++ ".itermcolors") = Some ITerm
  /\ format_from_filename (base ++ ".minttyrc") = Some Mintty
  /\ format_from_filename (base ++ ".sh") = Some Gogh
  /\ (forall opt source,
        ~ In opt ["iterm"; "mintty"; "gogh"] ->
        convert_format (Some opt) source = format_from_filename source).
Proof.
  split; [| split; [| split]].
  - unfold format_from_filename. rewrite ends_with_app. reflexivity.
  - unfold format_from_filename.
    rewrite (ends_with_last_differs _ ".minttyr" ".itermcolor" "c" "s")
      by (discriminate || (cbn [String.append]; apply ends_with_app)).
    rewrite ends_with_app. reflexivity.
  - unfold format_from_filename.
    rewrite (ends_with_last_differs _ ".s" ".itermcolor" "h" "s")
      by (discriminate || (cbn [String.append]; apply ends_with_app)).
    rewrite (ends_with_last_differs _ ".s" ".minttyr" "h" "c")
      by (discriminate || (cbn [String.append]; apply ends_with_app)).
    rewrite ends_with_app. reflexivity.
  - intros opt source Hn. unfold convert_format, format_from_string.
    destruct (String.eqb_spec opt "iterm") as [-> |]; [exfalso; apply Hn; left; reflexivity |].
    destruct (String.eqb_spec opt "mintty") as [-> |];
      [exfalso; apply Hn; right; left; reflexivity |].
    destruct (String.eqb_spec opt "gogh") as [-> |];
      [exfalso; apply Hn; right; right; left; reflexivity |].
    reflexivity.
Qed.

(** ** [Color::from_mintty_color]: the two kinds of error *)

Lemma parse_int_cases (s : string) :
  (exists v, parse_int s = Ok v) \/ parse_int s = Err ParseInt.
Proof.
  unfold parse_int. destruct (from_str_radix_u8 s 10);
    [left; eexists; reflexivity | right; reflexivity].
Qed.

(** X2: a mintty color fails with [InvalidColorFormat] exactly when it
    does not hold two commas; with two commas it either decodes or fails
    with [ParseInt], whatever its three parts are. *)
Theorem from_mintty_color_errors (s : string) :
  (count_char "," s <> 2%nat -> from_mintty_color s = Err (InvalidColorFormat s))
  /\ (count_char "," s = 2%nat ->
      (exists c, from_mintty_color s = Ok c) \/ from_mintty_color s = Err ParseInt).
Proof.
  unfold from_mintty_color. cbv zeta. rewrite split_char_length. split; intros H.
  - destruct (Nat.eqb_spec (S (count_char "," s)) 3); [lia | reflexivity].
  - rewrite H. cbn [Nat.eqb negb].
    destruct (parse_int_cases (nth 0 (split_char "," s) EmptyString)) as [[r Hr] | Hr];
      rewrite Hr; cbn [bind]; [| right; reflexivity].
    destruct (parse_int_cases (nth 1 (split_char "," s) EmptyString)) as [[g Hg] | Hg];
      rewrite Hg; cbn [bind]; [| right; reflexivity].
    destruct (parse_int_cases (nth 2 (split_char "," s) EmptyString)) as [[b Hb] | Hb];
      rewrite Hb; cbn [bind]; [left; eexists; reflexivity | right; reflexivity].
Qed.

(** ** [to_hex] read back by [Color::from_gogh_color] *)

Lemma two_hex_shape (n : Z) :
  0 <= n <= 255 ->
  exists a b, two_hex n = String a (String b EmptyString)
    /\ byte_of a < 128 /\ byte_of b < 128
    /\ hex_pair (String a (String b EmptyString)) = Some n.
Proof.
  intros Hn.
  pose proof (u8_cases (fun n => match two_hex n with
                                 | String a (String b EmptyString) =>
                                     (byte_of a <? 128) && (byte_of b <? 128)
                                     && match hex_pair (two_hex n) with
                                        | Some v => v =? n | None => false end
                                 | _ => false end)
                ltac:(vm_compute; reflexivity) n Hn) as H.
  cbv beta in H.
  destruct (two_hex n) as [| a [| b [| x t]]]; try discriminate.
  apply andb_prop in H as [H Hv]. apply andb_prop in H as [Ha Hb].
  exists a, b. split; [reflexivity |].
  split; [apply Z.ltb_lt; exact Ha |]. split; [apply Z.ltb_lt; exact Hb |].
  destruct (hex_pair (String a (String b EmptyString))) as [v |]; [| discriminate].
  apply Z.eqb_eq in Hv. rewrite Hv. reflexivity.
Qed.

(** X3: for a color whose components are bytes, the six digits that
    [to_hex] writes after ["0x"], read back by [from_gogh_color] behind a
    ['#'], give the same color. *)
Theorem to_hex_from_gogh_color (c : Color) :
  u8_color c = true ->
  exists d, to_hex c = "0x" ++ d /\ from_gogh_color ("#" ++ d) = Ok c.
Proof.
  unfold u8_color. intros H.
  repeat match type of H with
         | _ && _ = true => apply andb_prop in H as [H ?]
         end.
  repeat match goal with
         | Hx : (_ <=? _) = true |- _ => apply Z.leb_le in Hx
         end.
  destruct c as [r g b]; cbn [red green blue] in *.
  unfold to_hex. cbn [red green blue].
  rewrite !pad_lower_hex by lia.
  destruct (two_hex_shape r ltac:(lia)) as [r1 [r2 [Er [Hr1 [Hr2 Hr]]]]].
  destruct (two_hex_shape g ltac:(lia)) as [g1 [g2 [Eg [Hg1 [Hg2 Hg]]]]].
  destruct (two_hex_shape b ltac:(lia)) as [b1 [b2 [Eb [Hb1 [Hb2 Hb]]]]].
  rewrite Er, Eg, Eb. eexists. split; [reflexivity |].
  cbn [String.append].
  rewrite from_gogh_color_ascii7; [| reflexivity |].
  - unfold gogh_color_spec. cbn [substring]. rewrite Hr, Hg, Hb. reflexivity.
  - unfold ascii_only. cbn [list_ascii_of_string forallb].
    apply Z.ltb_lt in Hr1, Hr2, Hg1, Hg2, Hb1, Hb2.
    rewrite Hr1, Hr2, Hg1, Hg2, Hb1, Hb2. reflexivity.
Qed.

Lemma to_hex_from_gogh_color_witness :
  u8_color (mkColor 18 171 255) = true
  /\ exists d, to_hex (mkColor 18 171 255) = "0x" ++ d
               /\ from_gogh_color ("#" ++ d) = Ok (mkColor 18 171 255).
Proof.
  split; [reflexivity |]. apply to_hex_from_gogh_color. reflexivity.
Defined.

(** ** File names of [download_all]: [replace], [individual_url],
    [individual_path] *)

Lemma remove_all_aux_empty (fuel : nat) (pat : string) :
  remove_all_aux fuel pat EmptyString = EmptyString.
Proof. destruct fuel; reflexivity. Qed.

Lemma starts_refl (s : string) : starts s s = true.
Proof.
  induction s as [| c s IH]; [reflexivity |]. cbn. rewrite Ascii.eqb_refl. exact IH.
Qed.

Lemma no_char_cons (c d : ascii) (s : string) :
  no_char c (String d s) = negb (Ascii.eqb d c) && no_char c s.
Proof. reflexivity. Qed.

Lemma remove_all_aux_dotless (fuel : nat) (e n : string) :
  no_char "." n = true -> (String.length n < fuel)%nat ->
  remove_all_aux fuel (String "." e) (n ++ String "." e) = n.
Proof.
  revert fuel. induction n as [| c n IH]; intros fuel Hn Hf;
    (destruct fuel as [| f]; [cbn in Hf; lia |]).
  - cbn [String.append remove_all_aux].
    rewrite starts_refl. cbn [String.eqb negb andb].
    rewrite Nat.sub_diag, substring_zero_len. apply remove_all_aux_empty.
  - rewrite no_char_cons in Hn. apply andb_prop in Hn as [Hc Hn].
    cbn [String.append remove_all_aux].
    assert (Hs : starts (String "." e) (String c (n ++ String "." e)) = false).
    { cbn [starts]. rewrite Ascii.eqb_sym.
      destruct (Ascii.eqb c "."); [discriminate | reflexivity]. }
    rewrite Hs, andb_false_r. rewrite IH by (auto; cbn in Hf; lia). reflexivity.
Qed.

Lemma remove_all_dotless (e n : string) :
  no_char "." n = true -> remove_all (String "." e) (n ++ String "." e) = n.
Proof.
  intros Hn. unfold remove_all. apply remove_all_aux_dotless; [exact Hn |].
  rewrite str_length_app. cbn. lia.
Qed.

Lemma last_dot_aux_dotless (s : string) (i : nat) (acc : option nat) :
  no_char "." s = true -> last_dot_aux s i acc = acc.
Proof.
  revert i acc. induction s as [| c s IH]; intros i acc H; [reflexivity |].
  rewrite no_char_cons in H. apply andb_prop in H as [Hc H].
  cbn [last_dot_aux]. destruct (Ascii.eqb c "."); [discriminate |]. apply IH, H.
Qed.

Lemma last_dot_aux_app (a b : string) (i : nat) (acc : option nat) :
  last_dot_aux (a ++ b) i acc = last_dot_aux b (i + String.length a) (last_dot_aux a i acc).
Proof.
  revert i acc. induction a as [| c a IH]; intros i acc; cbn.
  - rewrite Nat.add_0_r. reflexivity.
  - rewrite IH. f_equal. lia.
Qed.

Lemma individual_url_raw (p : Provider) (n : string) :
  individual_url p n = raw_url p (n ++ extension p).
Proof. reflexivity. Qed.

Lemma last_dot_aux_bound (s : string) (i j : nat) (acc : option nat) :
  last_dot_aux s i acc = Some j -> acc = Some j \/ (i <= j < i + String.length s)%nat.
Proof.
  revert i acc. induction s as [| c s IH]; intros i acc H; [left; exact H |].
  cbn [last_dot_aux String.length] in *. apply IH in H as [H | H].
  - destruct (Ascii.eqb c "."); [injection H as <-; right; lia | left; exact H].
  - right. lia.
Qed.

Lemma file_stem_prefix (name : string) : exists r, name = file_stem name ++ r.
Proof.
  unfold file_stem. destruct (last_dot_aux name 0 None) as [[| k] |] eqn:E;
    try (exists EmptyString; rewrite str_app_nil_r; reflexivity).
  apply last_dot_aux_bound in E as [E | E]; [discriminate |].
  exists (substring (S k) (String.length name - S k) name).
  symmetry. apply substring_split. lia.
Qed.

Lemma file_stem_dotless (n : string) : no_char "." n = true -> file_stem n = n.
Proof. intros Hn. unfold file_stem. rewrite last_dot_aux_dotless by exact Hn. reflexivity. Qed.

Lemma file_stem_dotted (stem x : string) :
  stem <> EmptyString -> no_char "." stem = true -> no_char "." x = true ->
  file_stem (stem ++ String "." x) = stem.
Proof.
  intros Hne Hs Hx. unfold file_stem.
  rewrite last_dot_aux_app, (last_dot_aux_dotless stem) by exact Hs.
  cbn [last_dot_aux]. rewrite Ascii.eqb_refl.
  rewrite last_dot_aux_dotless by exact Hx.
  destruct stem as [| c s]; [contradiction |].
  cbn [String.length Nat.add]. apply (substring_prefix (String c s) (String "." x)).
Qed.

Lemma first_not_dot (c : ascii) (w : string) :
  Ascii.eqb c "." = false -> String c w <> "." /\ String c w <> "..".
Proof.
  intros Hc. split; intros E; injection E as Ec _; rewrite Ec in Hc; discriminate.
Qed.

Lemma dotless_segment (n : string) :
  n <> EmptyString -> no_char "." n = true -> n <> "." /\ n <> "..".
Proof.
  intros Hne Hn. destruct n as [| c w]; [contradiction |].
  rewrite no_char_cons in Hn. apply andb_prop in Hn as [Hc _].
  apply first_not_dot. destruct (Ascii.eqb c "."); [discriminate | reflexivity].
Qed.

Lemma starts_with_slash_no_char (name : string) :
  no_char "/" name = true -> starts_with_char "/" name = false.
Proof.
  destruct name as [| c w]; [reflexivity |]. rewrite no_char_cons.
  intros H. apply andb_prop in H as [Hc _]. cbn [starts_with_char].
  rewrite Ascii.eqb_sym. destruct (Ascii.eqb c "/"); [discriminate | reflexivity].
Qed.

Lemma last_char_cons (d : ascii) (x : string) :
  x <> EmptyString -> last_char (String d x) = last_char x.
Proof. destruct x; [contradiction | reflexivity]. Qed.

Lemma last_char_app (a b : string) : b <> EmptyString -> last_char (a ++ b) = last_char b.
Proof.
  intros Hb. induction a as [| d a IH]; [reflexivity |].
  cbn [String.append]. rewrite last_char_cons; [exact IH |].
  destruct a; [exact Hb | discriminate].
Qed.

Lemma last_char_some (s : string) (c : ascii) :
  last_char s = Some c -> exists s', s = s' ++ String c EmptyString.
Proof.
  induction s as [| d s IH]; intros H; [discriminate |].
  destruct s as [| d' s'].
  - injection H as <-. exists EmptyString. reflexivity.
  - rewrite last_char_cons in H by discriminate. destruct (IH H) as [s'' E].
    exists (String d s''). rewrite E. reflexivity.
Qed.

Lemma last_char_none (s : string) : last_char s = None -> s = EmptyString.
Proof.
  induction s as [| d s IH]; intros H; [reflexivity |].
  destruct s as [| d' s']; [discriminate |].
  rewrite last_char_cons in H by discriminate. apply IH in H. discriminate.
Qed.

Lemma last_char_segment (s : string) :
  s <> EmptyString -> no_char "/" s = true ->
  exists c, last_char s = Some c /\ Ascii.eqb c "/" = false.
Proof.
  induction s as [| d s IH]; intros Hne H; [contradiction |].
  rewrite no_char_cons in H. apply andb_prop in H as [Hd H].
  destruct s as [| d' s'].
  - exists d. split; [reflexivity |]. destruct (Ascii.eqb d "/"); [discriminate | reflexivity].
  - rewrite last_char_cons by discriminate. apply IH; [discriminate | exact H].
Qed.

Lemma path_push_rel (buf : string) :
  exists a, (a = EmptyString \/ exists a', a = a' ++ "/")
    /\ forall name, starts_with_char "/" name = false -> path_push buf name = a ++ name.
Proof.
  unfold path_push. destruct (last_char buf) as [c |] eqn:E.
  - destruct (Ascii.eqb c "/") eqn:Ec; cbn [negb].
    + exists buf. split; [| intros name H; rewrite H; reflexivity].
      right. apply Ascii.eqb_eq in Ec. subst c. exact (last_char_some buf "/" E).
    + exists (buf ++ "/"). split; [right; exists buf; reflexivity |].
      intros name H. rewrite H. reflexivity.
  - exists buf. split; [left; apply last_char_none, E |].
    intros name H. rewrite H. reflexivity.
Qed.

Lemma path_push_sep (buf name : string) (c : ascii) :
  last_char buf = Some c -> Ascii.eqb c "/" = false -> starts_with_char "/" name = false ->
  path_push buf name = buf ++ "/" ++ name.
Proof.
  intros E Ec H. unfold path_push. rewrite E, Ec, H. cbn [negb].
  rewrite str_app_assoc. reflexivity.
Qed.

Lemma last_component_sep (a b : string) (i st : nat) (seg : string)
    (best : option (nat * string)) :
  last_component (a ++ String "/" b) i st seg best
  = last_component b (S (i + String.length a)) (S (i + String.length a)) EmptyString
                   (last_component a i st seg best).
Proof.
  revert i st seg best. induction a as [| c a IH]; intros i st seg best.
  - cbn [String.append last_component String.length]. rewrite Ascii.eqb_refl, Nat.add_0_r.
    reflexivity.
  - cbn [String.append last_component String.length].
    replace (i + S (String.length a))%nat with (S i + String.length a)%nat by lia.
    destruct (Ascii.eqb c "/"); apply IH.
Qed.

Lemma last_component_seg (b : string) (i st : nat) (seg : string)
    (best : option (nat * string)) :
  no_char "/" b = true -> last_component b i st seg best = pick st (seg ++ b) best.
Proof.
  revert i seg. induction b as [| c b IH]; intros i seg H.
  - cbn [last_component]. rewrite str_app_nil_r. reflexivity.
  - rewrite no_char_cons in H. apply andb_prop in H as [Hc H].
    cbn [last_component]. destruct (Ascii.eqb c "/"); [discriminate |].
    rewrite IH by exact H. rewrite str_app_assoc. reflexivity.
Qed.

Lemma pick_segment (st : nat) (name : string) (best : option (nat * string)) :
  name <> EmptyString -> name <> "." -> pick st name best = Some (st, name).
Proof.
  intros H1 H2. unfold pick.
  destruct (String.eqb_spec name EmptyString); [contradiction |].
  destruct (String.eqb_spec name "."); [contradiction | reflexivity].
Qed.

Lemma file_name_segment (a name : string) :
  (a = EmptyString \/ exists a', a = a' ++ "/") ->
  name <> EmptyString -> name <> "." -> name <> ".." -> no_char "/" name = true ->
  last_component (a ++ name) 0 0 EmptyString None = Some (String.length a, name)
  /\ file_name (a ++ name) = Some (String.length a, name).
Proof.
  intros Ha H1 H2 H3 H4.
  assert (Hl : last_component (a ++ name) 0 0 EmptyString None
               = Some (String.length a, name)).
  { destruct Ha as [-> | [a' ->]].
    - cbn [String.append String.length].
      rewrite last_component_seg by exact H4. apply pick_segment; assumption.
    - rewrite str_app_assoc. cbn [String.append].
      rewrite last_component_sep, last_component_seg by exact H4.
      cbn [String.append]. rewrite pick_segment by assumption.
      rewrite str_length_app. cbn [String.length]. f_equal. f_equal. lia. }
  split; [exact Hl |]. unfold file_name. rewrite Hl.
  destruct (String.eqb_spec name ".."); [contradiction | reflexivity].
Qed.

Lemma set_extension_segment (a name ext : string) :
  (a = EmptyString \/ exists a', a = a' ++ "/") ->
  name <> EmptyString -> name <> "." -> name <> ".." -> no_char "/" name = true ->
  set_extension (a ++ name) ext
  = a ++ file_stem name
      ++ (if String.eqb ext EmptyString then EmptyString else "." ++ ext).
Proof.
  intros Ha H1 H2 H3 H4. unfold set_extension.
  rewrite (proj2 (file_name_segment a name Ha H1 H2 H3 H4)).
  destruct (file_stem_prefix name) as [r Hr].
  set (stem := file_stem name) in *. clearbody stem. subst name.
  rewrite <- str_app_assoc, <- str_length_app, substring_prefix, str_app_assoc.
  reflexivity.
Qed.

Lemma extension_slice (p : Provider) (e : string) :
  extension p = String "." e ->
  substring 1 (String.length (extension p) - 1) (extension p) = e.
Proof.
  intros He. rewrite He. cbn [String.length substring].
  replace (S (String.length e) - 1)%nat with (String.length e) by lia.
  apply substring_whole.
Qed.

Lemma individual_path_stem (cache : string) (p : Provider) (n1 n2 : string) :
  n1 <> EmptyString -> n1 <> "." -> n1 <> ".." -> no_char "/" n1 = true ->
  n2 <> EmptyString -> n2 <> "." -> n2 <> ".." -> no_char "/" n2 = true ->
  file_stem n1 = file_stem n2 ->
  individual_path cache p n1 = individual_path cache p n2.
Proof.
  intros A1 A2 A3 A4 B1 B2 B3 B4 Hs. unfold individual_path.
  destruct (path_push_rel (repo_dir cache p)) as [a [Ha Hpush]].
  rewrite !Hpush by (apply starts_with_slash_no_char; assumption).
  rewrite !set_extension_segment by assumption. rewrite Hs. reflexivity.
Qed.

Lemma repo_dir_shape (cache : string) (p : Provider) :
  repo_name p <> EmptyString -> no_char "/" (repo_name p) = true ->
  exists a, (a = EmptyString \/ exists a', a = a' ++ "/")
            /\ repo_dir cache p = a ++ repo_name p.
Proof.
  intros Hne Hs. unfold repo_dir.
  destruct (path_push_rel (path_push (path_push (path_push cache "colortty") "repositories")
                                     (user_name p))) as [a [Ha Hpush]].
  exists a. split; [exact Ha |]. apply Hpush, starts_with_slash_no_char, Hs.
Qed.

Lemma repo_dir_last_char (cache : string) (p : Provider) :
  repo_name p <> EmptyString -> no_char "/" (repo_name p) = true ->
  exists c, last_char (repo_dir cache p) = Some c /\ Ascii.eqb c "/" = false.
Proof.
  intros Hne Hs. destruct (repo_dir_shape cache p Hne Hs) as [a [_ ->]].
  rewrite last_char_app by exact Hne. apply last_char_segment; assumption.
Qed.

Lemma individual_path_named (cache : string) (p : Provider) (e name : string) :
  repo_name p <> EmptyString -> no_char "/" (repo_name p) = true ->
  extension p = String "." e -> e <> EmptyString ->
  name <> EmptyString -> name <> "." -> name <> ".." -> no_char "/" name = true ->
  individual_path cache p name = repo_dir cache p ++ "/" ++ file_stem name ++ extension p.
Proof.
  intros Hr1 Hr2 He Hne H1 H2 H3 H4. unfold individual_path.
  rewrite (extension_slice p e He).
  destruct (repo_dir_last_char cache p Hr1 Hr2) as [c [Hc Hc']].
  rewrite (path_push_sep _ _ c Hc Hc') by (apply starts_with_slash_no_char; exact H4).
  rewrite <- str_app_assoc.
  rewrite set_extension_segment by (auto; right; eexists; reflexivity).
  destruct (String.eqb_spec e EmptyString); [contradiction |].
  rewrite He, !str_app_assoc. reflexivity.
Qed.

Lemma individual_path_dotless (cache : string) (p : Provider) (e n : string) :
  repo_name p <> EmptyString -> no_char "/" (repo_name p) = true ->
  extension p = String "." e -> e <> EmptyString ->
  n <> EmptyString -> no_char "." n = true -> no_char "/" n = true ->
  individual_path cache p n = repo_dir cache p ++ "/" ++ n ++ extension p.
Proof.
  intros Hr1 Hr2 He Hne Hn Hd Hs.
  destruct (dotless_segment n Hn Hd) as [H2 H3].
  rewrite (individual_path_named cache p e n) by assumption.
  rewrite file_stem_dotless by exact Hd. reflexivity.
Qed.

(** X4: when the provider's repository name is a plain path segment and
    its extension is ['.'] followed by a non-empty suffix, a listed file
    [n ++ extension] whose stem [n] is non-empty and holds no ['.'] and no
    ['/'] is downloaded under the name [n]: it is fetched from the raw URL
    of that very file and written to [repo_dir/n ++ extension]. *)
Theorem download_names_dotless (cache : string) (p : Provider) (e n : string) :
  repo_name p <> EmptyString -> no_char "/" (repo_name p) = true ->
  extension p = String "." e -> e <> EmptyString ->
  n <> EmptyString -> no_char "." n = true -> no_char "/" n = true ->
  remove_all (extension p) (n ++ extension p) = n
  /\ individual_url p (remove_all (extension p) (n ++ extension p))
     = raw_url p (n ++ extension p)
  /\ individual_path cache p (remove_all (extension p) (n ++ extension p))
     = repo_dir cache p ++ "/" ++ n ++ extension p.
Proof.
  intros Hr1 Hr2 He Hne Hn Hd Hs.
  assert (Hr : remove_all (extension p) (n ++ extension p) = n)
    by (rewrite He; apply remove_all_dotless, Hd).
  rewrite Hr. split; [reflexivity |]. split; [apply individual_url_raw |].
  apply (individual_path_dotless cache p e n); assumption.
Qed.

Lemma download_names_dotless_witness :
  repo_name provider_gogh <> EmptyString /\ no_char "/" (repo_name provider_gogh) = true
  /\ extension provider_gogh = String "." "sh" /\ "sh" <> EmptyString
  /\ "Dracula" <> EmptyString /\ no_char "." "Dracula" = true
  /\ no_char "/" "Dracula" = true
  /\ (remove_all (extension provider_gogh) ("Dracula" ++ extension provider_gogh)
        = "Dracula"
      /\ individual_url provider_gogh
           (remove_all (extension provider_gogh) ("Dracula" ++ extension provider_gogh))
         = raw_url provider_gogh ("Dracula" ++ extension provider_gogh)
      /\ individual_path "/home/u/.cache" provider_gogh
           (remove_all (extension provider_gogh) ("Dracula" ++ extension provider_gogh))
         = repo_dir "/home/u/.cache" provider_gogh ++ "/" ++ "Dracula"
             ++ extension provider_gogh).
Proof.
  split; [discriminate |]. split; [reflexivity |]. split; [reflexivity |].
  split; [discriminate |]. split; [discriminate |]. split; [reflexivity |].
  split; [reflexivity |].
  apply (download_names_dotless "/home/u/.cache" provider_gogh "sh" "Dracula");
    solve [reflexivity | discriminate].
Defined.

(** X5: a name made of a non-empty stem, a ['.'] and a suffix, neither
    holding a ['.'] or a ['/'], is written to the same file as the bare
    stem ([set_extension] replaces what follows the last dot), while the
    two are fetched from different URLs. *)
Theorem individual_path_dotted_collision (cache : string) (p : Provider)
    (stem x : string) :
  stem <> EmptyString -> no_char "." stem = true -> no_char "." x = true ->
  no_char "/" stem = true -> no_char "/" x = true ->
  individual_path cache p (stem ++ String "." x) = individual_path cache p stem
  /\ individual_url p (stem ++ String "." x) <> individual_url p stem.
Proof.
  intros Hne Hs Hx Hs' Hx'. split.
  - destruct (dotless_segment stem Hne Hs) as [S2 S3].
    assert (Hc : exists c w, stem = String c w /\ Ascii.eqb c "." = false).
    { destruct stem as [| c w]; [contradiction |]. exists c, w. split; [reflexivity |].
      rewrite no_char_cons in Hs. apply andb_prop in Hs as [Hc _].
      destruct (Ascii.eqb c "."); [discriminate | reflexivity]. }
    destruct Hc as [c [w [Ew Hc]]].
    destruct (first_not_dot c (w ++ String "." x) Hc) as [D2 D3].
    apply individual_path_stem; try assumption.
    + rewrite Ew. discriminate.
    + rewrite Ew. exact D2.
    + rewrite Ew. exact D3.
    + rewrite no_char_app, Hs', no_char_cons, Hx'. reflexivity.
    + rewrite file_stem_dotted, file_stem_dotless by assumption. reflexivity.
  - unfold individual_url. intros H.
    apply (f_equal String.length) in H. rewrite !str_length_app in H. cbn in H. lia.
Qed.

Lemma individual_path_dotted_collision_witness :
  "Dracula" <> EmptyString /\ no_char "." "Dracula" = true /\ no_char "." "old" = true
  /\ no_char "/" "Dracula" = true /\ no_char "/" "old" = true
  /\ (individual_path "/c" provider_gogh ("Dracula" ++ String "." "old")
        = individual_path "/c" provider_gogh "Dracula"
      /\ individual_url provider_gogh ("Dracula" ++ String "." "old")
         <> individual_url provider_gogh "Dracula").
Proof.
  split; [discriminate |]. split; [reflexivity |]. split; [reflexivity |].
  split; [reflexivity |]. split; [reflexivity |].
  apply individual_path_dotted_collision; solve [discriminate | reflexivity].
Defined.

(** ** [Provider::get] *)

Lemma gogh_lines_ok (ls : list string) (scheme : ColorScheme) :
  exists sc, gogh_lines scheme ls = Ok sc.
Proof.
  revert scheme. induction ls as [| line ls IH]; intros scheme; cbn [gogh_lines].
  - eexists; reflexivity.
  - destruct (gogh_line_ok scheme line) as [s Hs]. rewrite Hs. cbn [bind]. apply IH.
Qed.

Lemma parse_color_scheme_not_iterm (parse_xml : string -> option Element)
    (p : Provider) (body : string) :
  extension p <> ".itermcolors" -> exists sc, parse_color_scheme parse_xml p body = Ok sc.
Proof.
  intros He. unfold parse_color_scheme.
  destruct (String.eqb_spec (extension p) ".itermcolors"); [contradiction |].
  apply gogh_lines_ok.
Qed.

(** X6: [get] reports a failed request as [HttpFailed] of the scheme's
    URL.  For a provider whose extension is not [.itermcolors] (Gogh) it
    fails only that way: any response body gives a scheme.  For the iTerm
    provider a body that is not XML fails with [XMLParse]. *)
Theorem get_outcomes (http_get : string -> option string)
    (parse_xml : string -> option Element) (p : Provider) (name : string) :
  (http_get (individual_url p name) = None ->
   get http_get parse_xml p name = Err (ProviderErr (HttpFailed (individual_url p name))))
  /\ (extension p <> ".itermcolors" ->
      (exists sc, get http_get parse_xml p name = Ok sc)
      \/ get http_get parse_xml p name = Err (ProviderErr (HttpFailed (individual_url p name))))
  /\ (extension p = ".itermcolors" -> forall body,
      http_get (individual_url p name) = Some body -> parse_xml body = None ->
      get http_get parse_xml p name = Err (ParseErr XMLParse)).
Proof.
  unfold get. cbv zeta. split; [| split].
  - intros H. rewrite H. reflexivity.
  - intros He. destruct (http_get (individual_url p name)) as [body |]; [left | right; reflexivity].
    destruct (parse_color_scheme_not_iterm parse_xml p body He) as [sc Hsc].
    rewrite Hsc. exists sc. reflexivity.
  - intros He body Hb Hx. rewrite Hb. unfold parse_color_scheme. rewrite He.
    cbn [String.eqb Ascii.eqb Bool.eqb]. unfold from_iterm. rewrite Hx. reflexivity.
Qed.

(** ** [Provider::read_color_schemes] and [read_color_scheme] *)

Lemma entry_names_some (p : Provider) (fs : list string) :
  Forall (fun f => valid_utf8 f = true) fs ->
  entry_names p (map Some fs) = Ok (map (remove_all (extension p)) fs).
Proof.
  induction 1 as [| f fs Hf _ IH]; [reflexivity |].
  cbn [map entry_names]. rewrite Hf, IH. reflexivity.
Qed.

Lemma entry_names_app_bad (p : Provider) (pre rest : list (option string)) :
  Forall (fun en => exists f, en = Some f /\ valid_utf8 f = true) pre ->
  (forall names, entry_names p rest <> Ok names) ->
  entry_names p (pre ++ rest) = entry_names p rest.
Proof.
  intros Hpre Hbad. induction Hpre as [| en pre [f [-> Hf]] _ IH]; [reflexivity |].
  cbn [List.app entry_names]. rewrite Hf, IH.
  destruct (entry_names p rest) as [ns | e |]; [exfalso; exact (Hbad ns eq_refl) | |];
    reflexivity.
Qed.

Lemma entry_names_ok (p : Provider) (entries : list (option string)) (names : list string) :
  entry_names p entries = Ok names ->
  exists fs, entries = map Some fs /\ Forall (fun f => valid_utf8 f = true) fs
             /\ names = map (remove_all (extension p)) fs.
Proof.
  revert names. induction entries as [| [f |] entries IH]; intros names H.
  - exists []. injection H as <-. split; [reflexivity | split; [constructor | reflexivity]].
  - cbn [entry_names] in H. destruct (valid_utf8 f) eqn:Hf; [| discriminate].
    destruct (entry_names p entries) as [ns | | ] eqn:Hn;
      cbn [bind] in H; try discriminate.
    injection H as <-. destruct (IH ns eq_refl) as [fs [-> [Hv ->]]].
    exists (f :: fs). split; [reflexivity | split; [constructor; assumption | reflexivity]].
  - discriminate.
Qed.

Lemma join_results_ok {A} (rs : list (outcome AppError A)) (xs : list A) :
  join_results rs = Ok xs <-> Forall2 (fun r x => r = Ok x) rs xs.
Proof.
  revert xs. induction rs as [| r rs IH]; intros xs; cbn [join_results].
  - split; [intros H; injection H as <-; constructor |].
    intros H; inversion H; reflexivity.
  - split.
    + intros H. destruct r as [x | e |]; cbn [bind] in H; try discriminate.
      destruct (join_results rs) as [ys | e |] eqn:Hj; cbn [bind] in H; try discriminate.
      injection H as <-. constructor; [reflexivity |]. apply IH. reflexivity.
    + intros H. inversion H as [| r' x ys rs' Hr Hrs]; subst.
      apply IH in Hrs. rewrite Hrs. reflexivity.
Qed.

Lemma Forall2_map_l {A B C} (f : A -> B) (R : B -> C -> Prop) (l : list A) (m : list C) :
  Forall2 R (map f l) m <-> Forall2 (fun a c => R (f a) c) l m.
Proof.
  revert m. induction l as [| a l IH]; intros m; split; intros H; cbn [map] in *.
  - inversion H; constructor.
  - inversion H; constructor.
  - inversion H; subst. constructor; [assumption | apply IH; assumption].
  - inversion H; subst. constructor; [assumption | apply IH; assumption].
Qed.

(** X7: [read_color_schemes] is all or nothing.  With the cache directory
    listed, the entries are all taken before any file is read: the first
    unreadable entry fails with [ReadEntryFailed], and the first file name
    that is not UTF-8 panics, whatever the files hold; and the call
    succeeds exactly when every entry is a UTF-8 file name [f] for which
    [read_color_scheme] of [f] without the extension succeeds, the results
    in directory order. *)
Theorem read_color_schemes_all_or_nothing (cache_dir : option string)
    (parse_xml : string -> option Element)
    (read_dir : string -> option (list (option string)))
    (read_file : string -> option string) (p : Provider) (cache : string)
    (entries : list (option string)) :
  cache_dir = Some cache -> read_dir (repo_dir cache p) = Some entries ->
  (forall pre post, entries = (pre ++ None :: post)%list ->
   Forall (fun en => exists f, en = Some f /\ valid_utf8 f = true) pre ->
   read_color_schemes cache_dir parse_xml read_dir read_file p = Err ReadEntryFailed)
  /\ (forall pre f post, entries = (pre ++ Some f :: post)%list -> valid_utf8 f = false ->
      Forall (fun en => exists f, en = Some f /\ valid_utf8 f = true) pre ->
      read_color_schemes cache_dir parse_xml read_dir read_file p = Panic)
  /\ (forall scs,
      read_color_schemes cache_dir parse_xml read_dir read_file p = Ok scs <->
      exists fs, entries = map Some fs /\ Forall (fun f => valid_utf8 f = true) fs
        /\ Forall2 (fun f sc => read_color_scheme parse_xml read_file cache p
                                  (remove_all (extension p) f) = Ok sc) fs scs).
Proof.
  intros Hc Hd. unfold read_color_schemes. rewrite Hc, Hd. split; [| split].
  - intros pre post -> Hpre. rewrite entry_names_app_bad by (auto; discriminate).
    reflexivity.
  - intros pre f post -> Hf Hpre.
    rewrite entry_names_app_bad by (auto; cbn [entry_names]; rewrite Hf; discriminate).
    cbn [entry_names]. rewrite Hf. reflexivity.
  - intros scs. split.
    + intros H. destruct (entry_names p entries) as [names | e |] eqn:Hn;
        cbn [bind] in H; try discriminate.
      destruct (entry_names_ok p entries names Hn) as [fs [-> [Hv ->]]].
      exists fs. split; [reflexivity | split; [exact Hv |]].
      apply join_results_ok in H. rewrite map_map in H.
      apply Forall2_map_l in H. exact H.
    + intros [fs [-> [Hv H]]]. rewrite entry_names_some by exact Hv. cbn [bind].
      apply join_results_ok. rewrite map_map. apply Forall2_map_l. exact H.
Qed.

Lemma read_color_schemes_all_or_nothing_witness :
  Some "/c" = Some "/c"
  /\ (fun _ : string => Some [Some "a.sh"; None]) (repo_dir "/c" provider_gogh)
     = Some [Some "a.sh"; None]
  /\ ((forall pre post, [Some "a.sh"; None] = (pre ++ None :: post)%list ->
       Forall (fun en => exists f, en = Some f /\ valid_utf8 f = true) pre ->
       read_color_schemes (Some "/c") (fun _ => None)
         (fun _ => Some [Some "a.sh"; None]) (fun _ => None) provider_gogh
       = Err ReadEntryFailed)
      /\ (forall pre f post, [Some "a.sh"; None] = (pre ++ Some f :: post)%list ->
          valid_utf8 f = false ->
          Forall (fun en => exists f, en = Some f /\ valid_utf8 f = true) pre ->
          read_color_schemes (Some "/c") (fun _ => None)
            (fun _ => Some [Some "a.sh"; None]) (fun _ => None) provider_gogh = Panic)
      /\ (forall scs,
          read_color_schemes (Some "/c") (fun _ => None)
            (fun _ => Some [Some "a.sh"; None]) (fun _ => None) provider_gogh = Ok scs <->
          exists fs, [Some "a.sh"; None] = map Some fs
            /\ Forall (fun f => valid_utf8 f = true) fs
            /\ Forall2 (fun f sc => read_color_scheme (fun _ => None) (fun _ => None)
                                      "/c" provider_gogh
                                      (remove_all (extension provider_gogh) f) = Ok sc)
                       fs scs)).
Proof.
  split; [reflexivity |]. split; [reflexivity |].
  apply (read_color_schemes_all_or_nothing (Some "/c") (fun _ => None)
           (fun _ => Some [Some "a.sh"; None]) (fun _ => None) provider_gogh "/c");
    reflexivity.
Defined.

(** X8: the schemes read back from a cache directory holding the files
    [n ++ extension] (UTF-8 names, as [download_all] writes them) of
    non-empty names [n] without ['.'] or ['/'] carry the names [n], in
    directory order, provided each file reads and parses (the provider's
    repository name being a plain path segment and its extension ['.']
    followed by a non-empty suffix). *)
Theorem read_color_schemes_names (cache_dir : option string)
    (parse_xml : string -> option Element)
    (read_dir : string -> option (list (option string)))
    (read_file : string -> option string) (p : Provider) (cache e : string)
    (names : list string) :
  cache_dir = Some cache ->
  repo_name p <> EmptyString -> no_char "/" (repo_name p) = true ->
  extension p = String "." e -> e <> EmptyString ->
  Forall (fun n => n <> EmptyString /\ no_char "." n = true /\ no_char "/" n = true
                   /\ valid_utf8 (n ++ extension p) = true) names ->
  read_dir (repo_dir cache p) = Some (map (fun n => Some (n ++ extension p)) names) ->
  (forall n, In n names -> exists body sc,
     read_file (repo_dir cache p ++ "/" ++ n ++ extension p) = Some body
     /\ parse_color_scheme parse_xml p body = Ok sc) ->
  exists scs, read_color_schemes cache_dir parse_xml read_dir read_file p = Ok scs
              /\ map fst scs = names.
Proof.
  intros Hc Hr1 Hr2 He Hne Hok Hd Hf. unfold read_color_schemes. rewrite Hc, Hd.
  rewrite <- (map_map (fun n => n ++ extension p) Some).
  rewrite entry_names_some
    by (apply Forall_map; eapply Forall_impl; [| exact Hok]; intros n Hn; apply Hn).
  rewrite map_map. cbn [bind].
  assert (Hr : map (fun n => remove_all (extension p) (n ++ extension p)) names = names).
  { clear Hf Hd. induction Hok as [| n ns [_ [Hn _]] _ IH]; [reflexivity |].
    cbn [map]. rewrite IH, He, remove_all_dotless by exact Hn. reflexivity. }
  rewrite Hr. clear Hr Hd.
  induction names as [| n ns IH]; [exists []; split; reflexivity |].
  inversion Hok as [| n' ns' [Hn1 [Hn2 [Hn3 _]]] Hns]; subst.
  destruct (Hf n (or_introl eq_refl)) as [body [sc [Hb Hp]]].
  destruct IH as [scs [Hj Hm]]; [exact Hns | intros m Hm; apply Hf; right; exact Hm |].
  exists ((n, sc) :: scs). cbn [map join_results]. unfold read_color_scheme at 1.
  rewrite (individual_path_dotless cache p e n) by assumption.
  rewrite Hb, Hp. cbn [map_err bind].
  rewrite Hj. split; [reflexivity |]. cbn [map fst]. rewrite Hm. reflexivity.
Qed.

Lemma read_color_schemes_names_witness :
  Some "/c" = Some "/c"
  /\ repo_name provider_gogh <> EmptyString /\ no_char "/" (repo_name provider_gogh) = true
  /\ extension provider_gogh = String "." "sh" /\ "sh" <> EmptyString
  /\ Forall (fun n => n <> EmptyString /\ no_char "." n = true /\ no_char "/" n = true
                      /\ valid_utf8 (n ++ extension provider_gogh) = true) ["a"; "b"]
  /\ (fun _ : string => Some [Some "a.sh"; Some "b.sh"]) (repo_dir "/c" provider_gogh)
     = Some (map (fun n => Some (n ++ extension provider_gogh)) ["a"; "b"])
  /\ exists scs,
       read_color_schemes (Some "/c") (fun _ => None)
         (fun _ => Some [Some "a.sh"; Some "b.sh"]) (fun _ => Some EmptyString)
         provider_gogh = Ok scs
       /\ map fst scs = ["a"; "b"].
Proof.
  split; [reflexivity |]. split; [discriminate |]. split; [reflexivity |].
  split; [reflexivity |]. split; [discriminate |].
  assert (Hok : Forall (fun n => n <> EmptyString /\ no_char "." n = true
                          /\ no_char "/" n = true
                          /\ valid_utf8 (n ++ extension provider_gogh) = true) ["a"; "b"]).
  { repeat constructor; discriminate. }
  split; [exact Hok |]. split; [reflexivity |].
  apply (read_color_schemes_names (Some "/c") (fun _ => None)
           (fun _ => Some [Some "a.sh"; Some "b.sh"]) (fun _ => Some EmptyString)
           provider_gogh "/c" "sh" ["a"; "b"]);
    [reflexivity | discriminate | reflexivity | reflexivity | discriminate | exact Hok
    | reflexivity |].
  intros n _. exists EmptyString. eexists. split; [reflexivity | vm_compute; reflexivity].
Defined.

(** ** [download_all] fetches and writes only what the listing names *)

Section DownloadTrace.

Variable http_get : string -> option string.
Variable write_ok : string -> bool.
Variable cache : string.
Variable p : Provider.
Variable items : list (option string).

Lemma download_color_scheme_events (fut : string * string) :
  from_listed p items (snd fut) -> fst fut = individual_url p (snd fut) ->
  Forall (event_from_listed http_get cache p items)
    (fst (download_color_scheme http_get write_ok cache p fut)).
Proof.
  destruct fut as [u name]. cbn [fst snd]. intros Hl Hu.
  unfold download_color_scheme. cbv zeta.
  destruct (http_get u) as [body |] eqn:Hb;
    [destruct (write_ok (individual_path cache p name)) |]; cbn [fst];
    repeat constructor; cbn [event_from_listed]; exists name;
    repeat split; try assumption; subst u; exact Hb.
Qed.

Lemma join_all_events (futs : list (string * string)) :
  Forall (fun fut => from_listed p items (snd fut) /\ fst fut = individual_url p (snd fut)) futs ->
  Forall (event_from_listed http_get cache p items)
    (fst (join_all http_get write_ok cache p futs)).
Proof.
  induction futs as [| fut futs IH]; intros H; cbn [join_all].
  - repeat constructor.
  - inversion H as [| ? ? [Hl Hu] Hs]; subst.
    pose proof (download_color_scheme_events fut Hl Hu) as Hd.
    destruct (download_color_scheme http_get write_ok cache p fut) as [evs r].
    cbn [fst] in Hd.
    destruct r; cbn [fst].
    + specialize (IH Hs). destruct (join_all http_get write_ok cache p futs) as [evs' r'].
      apply Forall_app; split; assumption.
    + apply Forall_app; split; [assumption | repeat constructor].
    + assumption.
Qed.

Lemma download_loop_events (its : list (option string)) (futs : list (string * string)) :
  incl its items ->
  Forall (fun fut => from_listed p items (snd fut) /\ fst fut = individual_url p (snd fut)) futs ->
  Forall (event_from_listed http_get cache p items)
    (fst (download_loop http_get write_ok cache p its futs)).
Proof.
  revert futs. induction its as [| it its IH]; intros futs Hi Hf; cbn [download_loop].
  - constructor.
  - destruct it as [filename |]; [| constructor].
    assert (Hrest : incl its items) by (intros x Hx; apply Hi; right; exact Hx).
    replace (starts_with_char "_" filename || negb (ends_with filename (extension p)))
      with (negb (qualifies p filename))
      by (unfold qualifies; destruct (starts_with_char "_" filename); reflexivity).
    destruct (qualifies p filename) eqn:Hq; cbn [negb]; [| apply IH; assumption].
    cbv zeta.
    assert (Hf' : Forall (fun fut => from_listed p items (snd fut)
                                     /\ fst fut = individual_url p (snd fut))
                    (futs ++ [(individual_url p (remove_all (extension p) filename),
                               remove_all (extension p) filename)])%list).
    { apply Forall_app. split; [exact Hf |]. repeat constructor.
      exists filename. repeat split; [apply Hi; left; reflexivity | exact Hq]. }
    destruct (Nat.ltb 10 _); [| apply IH; assumption].
    unfold try_join_all.
    pose proof (join_all_events _ Hf') as Hj.
    destruct (join_all http_get write_ok cache p _) as [evs r]. cbn [fst] in Hj.
    destruct r; cbn [fst].
    + destruct (download_loop http_get write_ok cache p its []) as [evs' r'] eqn:Hl.
      cbn [fst]. apply Forall_app. split; [constructor; [exact I | exact Hj] |].
      change evs' with (fst (evs', r')). rewrite <- Hl. apply IH; [exact Hrest | constructor].
    + constructor; [exact I | exact Hj].
    + constructor; [exact I | exact Hj].
Qed.

End DownloadTrace.

(** X9: [download_all] fetches and writes only listed files that pass its
    filter (not starting with ['_'], ending with the extension): every
    fetched URL is the [individual_url] of such a file's name, and every
    written file is that name's [individual_path] in the cache directory,
    holding the body fetched from that URL. *)
Theorem download_all_only_listed (cache_dir : option string) (create_dir_ok : bool)
    (http_get : string -> option string)
    (parse_listing : string -> option (list (option string)))
    (write_ok : string -> bool) (p : Provider) :
  let evs := fst (download_all cache_dir create_dir_ok http_get parse_listing write_ok p) in
  (forall u, In (Fetch u) evs ->
     exists lb items f, http_get (list_url p) = Some lb /\ parse_listing lb = Some items
       /\ In (Some f) items /\ qualifies p f = true
       /\ u = individual_url p (remove_all (extension p) f))
  /\ (forall path body, In (WriteFile path body) evs ->
     exists cache lb items f, cache_dir = Some cache
       /\ http_get (list_url p) = Some lb /\ parse_listing lb = Some items
       /\ In (Some f) items /\ qualifies p f = true
       /\ path = individual_path cache p (remove_all (extension p) f)
       /\ http_get (individual_url p (remove_all (extension p) f)) = Some body).
Proof.
  cbv zeta. unfold download_all.
  destruct cache_dir as [cache |];
    [| cbn [fst]; split; intros *; intros []].
  cbv zeta. destruct (negb create_dir_ok).
  { cbn [fst]. split; intros *; cbn [In]; intros [H | []]; discriminate. }
  destruct (http_get (list_url p)) as [lb |] eqn:Hlb.
  2: { cbn [fst]. split; intros *; cbn [In]; intros [H | [H | []]]; discriminate. }
  destruct (parse_listing lb) as [items |] eqn:Hit.
  2: { cbn [fst]. split; intros *; cbn [In]; intros [H | [H | []]]; discriminate. }
  pose proof (download_loop_events http_get write_ok cache p items items []
                (incl_refl items) (Forall_nil _)) as H.
  destruct (download_loop http_get write_ok cache p items []) as [evs r].
  cbn [fst] in *. rewrite Forall_forall in H. split.
  - intros u Hin. destruct Hin as [Hin | [Hin | Hin]]; try discriminate.
    destruct (H _ Hin) as [name [[f [Hf [Hq ->]]] ->]].
    exists lb, items, f. repeat split; assumption.
  - intros path body Hin. destruct Hin as [Hin | [Hin | Hin]]; try discriminate.
    destruct (H _ Hin) as [name [[f [Hf [Hq ->]]] [-> Hb]]].
    exists cache, lb, items, f. repeat split; assumption.
Qed.

(** ** Injectivity of [to_24bit_be], [to_24bit_preview] and [to_hex] *)

Lemma sep_cancel (c : ascii) (a b x y : string) :
  no_char c a = true -> no_char c b = true ->
  a ++ String c x = b ++ String c y -> a = b /\ x = y.
Proof.
  revert b. induction a as [| d a IH]; intros [| e b] Ha Hb H; cbn [String.append] in H.
  - injection H as ->. split; reflexivity.
  - injection H as <- _. rewrite no_char_cons, Ascii.eqb_refl in Hb. discriminate.
  - injection H as -> _. rewrite no_char_cons, Ascii.eqb_refl in Ha. discriminate.
  - injection H as <- H. rewrite no_char_cons in Ha, Hb.
    apply andb_prop in Ha as [_ Ha]. apply andb_prop in Hb as [_ Hb].
    destruct (IH b Ha Hb H) as [-> ->]. split; reflexivity.
Qed.

Lemma decimal_no_sep (n : Z) :
  0 <= n <= 255 -> no_char ";" (decimal n) = true /\ no_char "m" (decimal n) = true.
Proof.
  intros Hn.
  pose proof (u8_cases (fun n => no_char ";" (decimal n) && no_char "m" (decimal n))
                ltac:(vm_compute; reflexivity) n Hn) as H.
  apply andb_prop in H. exact H.
Qed.

Lemma decimal_inj (n m : Z) :
  0 <= n <= 255 -> 0 <= m <= 255 -> decimal n = decimal m -> n = m.
Proof.
  intros Hn Hm H. pose proof (parse_int_decimal n Hn) as E.
  rewrite H, parse_int_decimal in E by exact Hm. injection E as E. symmetry; exact E.
Qed.

Lemma u8_color_range (c : Color) :
  u8_color c = true -> 0 <= red c <= 255 /\ 0 <= green c <= 255 /\ 0 <= blue c <= 255.
Proof.
  unfold u8_color. intros H.
  repeat match type of H with
         | _ && _ = true => apply andb_prop in H as [H ?]
         end.
  repeat match goal with
         | Hx : (_ <=? _) = true |- _ => apply Z.leb_le in Hx
         end.
  lia.
Qed.

Ltac normalize_app H :=
  cbn [String.append] in H;
  repeat (rewrite str_app_assoc in H; cbn [String.append] in H).

Ltac peel H :=
  repeat match type of H with
         | String _ _ = String _ _ => injection H as H
         end.

Lemma rgb_cancel (c1 c2 : Color) (x y : string) :
  u8_color c1 = true -> u8_color c2 = true ->
  decimal (red c1) ++ String ";" (decimal (green c1) ++ String ";" (decimal (blue c1) ++ String "m" x))
  = decimal (red c2) ++ String ";" (decimal (green c2) ++ String ";" (decimal (blue c2) ++ String "m" y))
  -> c1 = c2 /\ x = y.
Proof.
  intros H1 H2 H.
  destruct (u8_color_range c1 H1) as [Hr1 [Hg1 Hb1]].
  destruct (u8_color_range c2 H2) as [Hr2 [Hg2 Hb2]].
  apply sep_cancel in H as [Hr H]; [| apply decimal_no_sep; lia ..].
  apply sep_cancel in H as [Hg H]; [| apply decimal_no_sep; lia ..].
  apply sep_cancel in H as [Hb H]; [| apply decimal_no_sep; lia ..].
  apply decimal_inj in Hr, Hg, Hb; try lia.
  destruct c1, c2; cbn in *; subst. split; reflexivity.
Qed.

Lemma to_24bit_be_cancel (c1 c2 : Color) (x y : string) :
  u8_color c1 = true -> u8_color c2 = true ->
  to_24bit_be c1 ++ x = to_24bit_be c2 ++ y -> c1 = c2 /\ x = y.
Proof.
  intros H1 H2 H. unfold to_24bit_be in H. normalize_app H. peel H.
  exact (rgb_cancel c1 c2 x y H1 H2 H).
Qed.

Lemma to_24bit_preview_cancel (c1 c2 : Color) (x y : string) :
  u8_color c1 = true -> u8_color c2 = true ->
  to_24bit_preview c1 ++ x = to_24bit_preview c2 ++ y -> c1 = c2 /\ x = y.
Proof.
  intros H1 H2 H. unfold to_24bit_preview in H. normalize_app H. peel H.
  apply rgb_cancel in H as [-> H]; [| assumption ..].
  unfold bullet in H. cbn [String.append] in H. peel H. split; [reflexivity | exact H].
Qed.

Lemma to_hex_cancel (c1 c2 : Color) (x y : string) :
  u8_color c1 = true -> u8_color c2 = true ->
  to_hex c1 ++ x = to_hex c2 ++ y -> c1 = c2 /\ x = y.
Proof.
  intros H1 H2 H.
  destruct (u8_color_range c1 H1) as [Hr1 [Hg1 Hb1]].
  destruct (u8_color_range c2 H2) as [Hr2 [Hg2 Hb2]].
  destruct c1 as [r1 g1 b1], c2 as [r2 g2 b2]; cbn [red green blue] in *.
  unfold to_hex in H. cbn [red green blue] in H. rewrite !pad_lower_hex in H by lia.
  destruct (two_hex_shape r1 ltac:(lia)) as [r1a [r1b [Er1 [_ [_ Pr1]]]]].
  destruct (two_hex_shape g1 ltac:(lia)) as [g1a [g1b [Eg1 [_ [_ Pg1]]]]].
  destruct (two_hex_shape b1 ltac:(lia)) as [b1a [b1b [Eb1 [_ [_ Pb1]]]]].
  destruct (two_hex_shape r2 ltac:(lia)) as [r2a [r2b [Er2 [_ [_ Pr2]]]]].
  destruct (two_hex_shape g2 ltac:(lia)) as [g2a [g2b [Eg2 [_ [_ Pg2]]]]].
  destruct (two_hex_shape b2 ltac:(lia)) as [b2a [b2b [Eb2 [_ [_ Pb2]]]]].
  rewrite Er1, Eg1, Eb1, Er2, Eg2, Eb2 in H. cbn [String.append] in H.
  injection H as <- <- <- <- <- <- H.
  rewrite Pr1 in Pr2. rewrite Pg1 in Pg2. rewrite Pb1 in Pb2.
  injection Pr2 as <-. injection Pg2 as <-. injection Pb2 as <-.
  split; [reflexivity | exact H].
Qed.

Lemma u8_scheme_colors (s : ColorScheme) :
  u8_scheme s = true ->
  (forall c, In c (base_colors s) -> u8_color c = true)
  /\ (forall c, Scheme.cursor_text s = Some c -> u8_color c = true)
  /\ (forall c, Scheme.cursor s = Some c -> u8_color c = true).
Proof.
  unfold u8_scheme. intros H. apply andb_prop in H as [H Hc]. apply andb_prop in H as [Hb Ht].
  rewrite forallb_forall in Hb. split; [exact Hb |]. split.
  - intros c E. rewrite E in Ht. exact Ht.
  - intros c E. rewrite E in Hc. exact Hc.
Qed.

Lemma str_cons_inj (a : ascii) (x y : string) : String a x = String a y -> x = y.
Proof. intros H. injection H as H. exact H. Qed.

(** X10: on colors whose components are bytes, [to_preview] loses no base
    color and shows nothing else: two schemes have the same preview line
    exactly when their foreground, background and sixteen ANSI colors are
    the same (the cursor colors never reach it). *)
Theorem to_preview_injective (s1 s2 : ColorScheme) :
  u8_scheme s1 = true -> u8_scheme s2 = true ->
  (to_preview s1 = to_preview s2 <-> base_colors s1 = base_colors s2).
Proof.
  intros H1 H2.
  destruct (u8_scheme_colors s1 H1) as [U1 _].
  destruct (u8_scheme_colors s2 H2) as [U2 _].
  split.
  - intros H. unfold to_preview in H. cbn [String.concat String.append] in H.
    apply to_24bit_be_cancel in H as [Ebg H];
      [| apply U1; cbn [base_colors In]; tauto | apply U2; cbn [base_colors In]; tauto].
    apply str_cons_inj in H.
    repeat match type of H with
           | String _ _ = String _ _ => apply str_cons_inj in H
           | to_24bit_preview _ ++ _ = to_24bit_preview _ ++ _ =>
               apply to_24bit_preview_cancel in H as [? H];
                 [| apply U1; cbn [base_colors In]; tauto
                  | apply U2; cbn [base_colors In]; tauto]
           end.
    unfold base_colors. congruence.
  - intros H. unfold base_colors in H. injection H; intros. unfold to_preview. congruence.
Qed.

Lemma to_preview_injective_witness :
  u8_scheme Scheme.default = true
  /\ u8_scheme (Scheme.set_slot Scheme.Red (mkColor 205 49 49) Scheme.default) = true
  /\ (to_preview Scheme.default
        = to_preview (Scheme.set_slot Scheme.Red (mkColor 205 49 49) Scheme.default)
      <-> base_colors Scheme.default
          = base_colors (Scheme.set_slot Scheme.Red (mkColor 205 49 49) Scheme.default)).
Proof.
  split; [reflexivity |]. split; [reflexivity |].
  apply to_preview_injective; reflexivity.
Defined.

Lemma cursor_colors_pair (s : ColorScheme) :
  cursor_colors s =
  match cursor_pair s with
  | Some (cursor_text, cursor) =>
      NL ++ "# Cursor colors" ++ NL
      ++ "[colors.cursor]" ++ NL
      ++ "text =   '" ++ to_hex cursor_text ++ "'" ++ NL
      ++ "cursor = '" ++ to_hex cursor ++ "'" ++ NL
  | None => EmptyString
  end.
Proof.
  unfold cursor_colors, cursor_pair.
  destruct (Scheme.cursor_text s), (Scheme.cursor s); reflexivity.
Qed.

(** X11: on colors whose components are bytes, the TOML that [to_toml]
    writes determines the scheme's foreground, background and sixteen ANSI
    colors and its cursor colors when both are set; conversely two schemes
    that agree on those give the same TOML (a cursor color set without the
    other is never written). *)
Theorem to_toml_injective (s1 s2 : ColorScheme) :
  u8_scheme s1 = true -> u8_scheme s2 = true ->
  (to_toml s1 = to_toml s2
   <-> base_colors s1 = base_colors s2 /\ cursor_pair s1 = cursor_pair s2).
Proof.
  intros H1 H2.
  destruct (u8_scheme_colors s1 H1) as [U1 [T1 C1]].
  destruct (u8_scheme_colors s2 H2) as [U2 [T2 C2]].
  split.
  - intros H. unfold cursor_pair. unfold to_toml, cursor_colors in H.
    destruct (Scheme.cursor_text s1) as [ct1 |] eqn:Et1, (Scheme.cursor s1) as [cc1 |] eqn:Ec1,
      (Scheme.cursor_text s2) as [ct2 |] eqn:Et2, (Scheme.cursor s2) as [cc2 |] eqn:Ec2;
      unfold NL in H; cbn [String.append] in H;
      repeat match type of H with
             | context [(_ ++ _) ++ _] => rewrite !str_app_assoc in H; cbn [String.append] in H
             | String _ _ = String _ _ => apply str_cons_inj in H
             | to_hex _ ++ _ = to_hex _ ++ _ =>
                 apply to_hex_cancel in H as [? H];
                   [| first [ apply U1; cbn [base_colors In]; tauto
                            | apply T1; reflexivity | apply C1; reflexivity ]
                    | first [ apply U2; cbn [base_colors In]; tauto
                            | apply T2; reflexivity | apply C2; reflexivity ] ]
             end;
      try discriminate H;
      (split; [unfold base_colors; congruence | congruence]).
  - intros [Hb Hc]. unfold to_toml. rewrite !cursor_colors_pair, Hc.
    unfold base_colors in Hb. injection Hb; intros. congruence.
Qed.

Lemma to_toml_injective_witness :
  u8_scheme Scheme.default = true
  /\ u8_scheme (with_cursors Scheme.default (Some (mkColor 1 2 3)) None) = true
  /\ (to_toml Scheme.default
        = to_toml (with_cursors Scheme.default (Some (mkColor 1 2 3)) None)
      <-> base_colors Scheme.default
          = base_colors (with_cursors Scheme.default (Some (mkColor 1 2 3)) None)
          /\ cursor_pair Scheme.default
             = cursor_pair (with_cursors Scheme.default (Some (mkColor 1 2 3)) None)).
Proof.
  split; [reflexivity |]. split; [reflexivity |].
  apply to_toml_injective; reflexivity.
Defined.

(** ** [ColorScheme::from_iterm]: empty elements *)

Lemma iterm_pairs_app (scheme : ColorScheme) (pre post : list (Element * Element)) :
  iterm_pairs scheme (pre ++ post) = (s <- iterm_pairs scheme pre ;; iterm_pairs s post).
Proof.
  revert scheme. induction pre as [| [k v] pre IH]; intros scheme; [reflexivity |].
  cbn [List.app iterm_pairs]. rewrite bind_assoc.
  destruct (iterm_pair scheme k v); cbn [bind]; [apply IH | reflexivity | reflexivity].
Qed.

(** X12: [from_iterm] panics (through [extract_text]'s [children[0]]) on
    an empty [<key/>] in the root dictionary once the pairs before it have
    decoded and the key has a [<dict>] partner; inside a color dictionary an
    empty [<key/>] starting a pair panics as well. *)
Theorem from_iterm_empty_key_panics (root root_dict k d : Element) (rest : list Element)
    (pre post : list (Element * Element)) (sc : ColorScheme) :
  get_children root "dict" = root_dict :: rest ->
  iterm_key_dicts root_dict = (pre ++ (k, d) :: post)%list ->
  iterm_pairs Scheme.default pre = Ok sc ->
  el_children k = [] ->
  from_iterm_root root = Panic
  /\ (forall v nodes color, iterm_components (k :: v :: nodes) color = Panic).
Proof.
  intros Hr Hp Hpre Hk. split.
  - unfold from_iterm_root. rewrite Hr, Hp, iterm_pairs_app, Hpre. cbn [bind iterm_pairs].
    unfold iterm_pair, extract_text. rewrite Hk. reflexivity.
  - intros v nodes color. cbn [iterm_components]. unfold extract_text. rewrite Hk.
    reflexivity.
Qed.

Lemma from_iterm_empty_key_panics_witness :
  let root := plist [xtext "key" "Metadata"; ElementNode (xel "dict" []);
                     ElementNode (xel "key" []); ElementNode (xel "dict" [])] in
  get_children root "dict"
    = [xel "dict" [xtext "key" "Metadata"; ElementNode (xel "dict" []);
                   ElementNode (xel "key" []); ElementNode (xel "dict" [])]]
  /\ iterm_key_dicts (xel "dict" [xtext "key" "Metadata"; ElementNode (xel "dict" []);
                                 ElementNode (xel "key" []); ElementNode (xel "dict" [])])
     = ([(xel "key" [CharacterNode "Metadata"], xel "dict" [])]
        ++ (xel "key" [], xel "dict" []) :: [])%list
  /\ iterm_pairs Scheme.default [(xel "key" [CharacterNode "Metadata"], xel "dict" [])]
     = Ok Scheme.default
  /\ el_children (xel "key" []) = []
  /\ (from_iterm_root root = Panic
      /\ (forall v nodes color,
            iterm_components (xel "key" [] :: v :: nodes) color = Panic)).
Proof.
  cbv zeta. split; [reflexivity |]. split; [reflexivity |]. split; [reflexivity |].
  split; [reflexivity |].
  eapply (from_iterm_empty_key_panics _ _ (xel "key" []) (xel "dict" []) []
           [(xel "key" [CharacterNode "Metadata"], xel "dict" [])] [] Scheme.default);
    reflexivity.
Defined.

(** ** Parsing a concatenation of two files *)

Lemma split_char_nonempty (sep : ascii) (s : string) : split_char sep s <> [].
Proof.
  induction s as [| c s IH]; cbn [split_char]; [discriminate |].
  destruct (Ascii.eqb c sep); [discriminate |]. destruct (split_char sep s); discriminate.
Qed.

Lemma split_char_sep_app (sep : ascii) (a b : string) :
  split_char sep (a ++ String sep b) = (split_char sep a ++ split_char sep b)%list.
Proof.
  induction a as [| c a IH]; cbn [String.append split_char].
  - rewrite Ascii.eqb_refl. reflexivity.
  - destruct (Ascii.eqb c sep); [rewrite IH; reflexivity |].
    rewrite IH. pose proof (split_char_nonempty sep a) as Hn.
    destruct (split_char sep a); [contradiction | reflexivity].
Qed.

Lemma split_char_last (sep c : ascii) (a : string) :
  Ascii.eqb c sep = false ->
  exists pre w, split_char sep (a ++ String c EmptyString)
                = (pre ++ [String.append w (String c EmptyString)])%list.
Proof.
  intros Hc. induction a as [| d a IH]; cbn [String.append split_char].
  - rewrite Hc. exists [], EmptyString. reflexivity.
  - destruct IH as [pre [w E]]. rewrite E.
    destruct (Ascii.eqb d sep).
    + exists (EmptyString :: pre), w. reflexivity.
    + destruct pre as [| h t].
      * exists [], (String d w). reflexivity.
      * exists (String d h :: t), w. reflexivity.
Qed.

Lemma get_last (w : string) (c : ascii) :
  String.get (String.length w) (w ++ String c EmptyString) = Some c.
Proof. induction w as [| d w IH]; [reflexivity | exact IH]. Qed.

Lemma strip_cr_last (w : string) (c : ascii) :
  Ascii.eqb c cr = false -> strip_cr (w ++ String c EmptyString) = w ++ String c EmptyString.
Proof.
  intros Hc. unfold strip_cr. rewrite str_length_app. cbn [String.length].
  replace (String.length w + 1 - 1)%nat with (String.length w) by lia.
  rewrite get_last, Hc, andb_false_r. reflexivity.
Qed.

Lemma lines_app (a : string) (c : ascii) (b : string) :
  Ascii.eqb c nl = false -> Ascii.eqb c cr = false ->
  lines ((a ++ String c EmptyString) ++ String nl b)
  = (lines (a ++ String c EmptyString) ++ lines b)%list.
Proof.
  intros Hc Hr. unfold lines.
  rewrite split_char_sep_app.
  destruct (split_char_last nl c a Hc) as [pre [w E]]. rewrite E.
  pose proof (split_char_nonempty nl b) as Hb.
  destruct (rev (split_char nl b)) as [| lb rb] eqn:Eb.
  - exfalso. apply Hb. rewrite <- (rev_involutive (split_char nl b)), Eb. reflexivity.
  - rewrite <- (rev_involutive (split_char nl b)), Eb.
    rewrite !rev_app_distr, rev_involutive. cbn [rev List.app].
    rewrite <- app_assoc. cbn [List.app].
    assert (Hw : String.eqb (w ++ String c EmptyString) EmptyString = false).
    { destruct w; reflexivity. }
    rewrite Hw. rewrite rev_app_distr, rev_involutive. cbn [rev List.app].
    rewrite !map_app. cbn [map]. rewrite strip_cr_last by exact Hr.
    rewrite <- !app_assoc, rev_involutive. reflexivity.
Qed.

Lemma minttyrc_lines_app (scheme : ColorScheme) (l1 l2 : list string) :
  minttyrc_lines scheme (l1 ++ l2) = (s <- minttyrc_lines scheme l1 ;; minttyrc_lines s l2).
Proof.
  revert scheme. induction l1 as [| line l1 IH]; intros scheme; [reflexivity |].
  cbn [List.app minttyrc_lines]. cbv zeta.
  destruct (negb _); [reflexivity |].
  destruct (from_mintty_color _); cbn [bind]; [| reflexivity | reflexivity].
  destruct (mintty_slot _); [apply IH | reflexivity].
Qed.

Lemma gogh_lines_app (scheme : ColorScheme) (l1 l2 : list string) :
  gogh_lines scheme (l1 ++ l2) = (s <- gogh_lines scheme l1 ;; gogh_lines s l2).
Proof.
  revert scheme. induction l1 as [| line l1 IH]; intros scheme; [reflexivity |].
  cbn [List.app gogh_lines]. rewrite bind_assoc.
  destruct (gogh_line scheme line); cbn [bind]; [apply IH | reflexivity | reflexivity].
Qed.

(** X14: parsing two files joined by a newline, the first ending in a
    character other than a newline or a carriage return, is parsing the
    first and then applying the lines of the second to its result, for
    [from_minttyrc] and [from_gogh] alike: the lines of the second file
    start from the scheme the first one built, and an error in the first
    file is the result. *)
Theorem from_minttyrc_gogh_concat (a : string) (c : ascii) (b : string) :
  Ascii.eqb c nl = false -> Ascii.eqb c cr = false ->
  from_minttyrc ((a ++ String c EmptyString) ++ String nl b)
    = (s <- from_minttyrc (a ++ String c EmptyString) ;; minttyrc_lines s (lines b))
  /\ from_gogh ((a ++ String c EmptyString) ++ String nl b)
    = (s <- from_gogh (a ++ String c EmptyString) ;; gogh_lines s (lines b)).
Proof.
  intros Hc Hr. unfold from_minttyrc, from_gogh. rewrite (lines_app a c b Hc Hr).
  split; [apply minttyrc_lines_app | apply gogh_lines_app].
Qed.

Lemma from_minttyrc_gogh_concat_witness :
  Ascii.eqb "0" nl = false /\ Ascii.eqb "0" cr = false
  /\ (from_minttyrc (("Black=1,2,3" ++ String "0" EmptyString) ++ String nl "Red=4,5,6")
        = (s <- from_minttyrc ("Black=1,2,3" ++ String "0" EmptyString) ;;
           minttyrc_lines s (lines "Red=4,5,6"))
      /\ from_gogh (("Black=1,2,3" ++ String "0" EmptyString) ++ String nl "Red=4,5,6")
        = (s <- from_gogh ("Black=1,2,3" ++ String "0" EmptyString) ;;
           gogh_lines s (lines "Red=4,5,6"))).
Proof.
  split; [reflexivity |]. split; [reflexivity |].
  apply from_minttyrc_gogh_concat; reflexivity.
Defined.

(** ** [filename.replace(&self.extension, "")] on a name holding the
    extension twice *)

Lemma remove_all_aux_dotless_prefix (e n rest : string) (fuel : nat) :
  no_char "." n = true -> (String.length (n ++ rest) <= fuel)%nat ->
  remove_all_aux fuel (String "." e) (n ++ rest)
  = n ++ remove_all_aux (fuel - String.length n) (String "." e) rest.
Proof.
  revert fuel. induction n as [| c n IH]; intros fuel Hn Hf.
  - cbn [String.append String.length]. rewrite Nat.sub_0_r. reflexivity.
  - rewrite no_char_cons in Hn. apply andb_prop in Hn as [Hc Hn].
    destruct fuel as [| f]; [cbn in Hf; lia |].
    cbn [String.append remove_all_aux].
    assert (Hs : starts (String "." e) (String c (n ++ rest)) = false).
    { cbn [starts]. rewrite Ascii.eqb_sym.
      destruct (Ascii.eqb c "."); [discriminate | reflexivity]. }
    rewrite Hs, andb_false_r. rewrite IH by (auto; cbn in Hf; lia). reflexivity.
Qed.

Lemma remove_all_aux_pattern (pat rest : string) (f : nat) :
  pat <> EmptyString ->
  remove_all_aux (S f) pat (pat ++ rest) = remove_all_aux f pat rest.
Proof.
  intros Hp. destruct pat as [| c pat']; [contradiction |].
  cbn [String.append remove_all_aux].
  change (String c (pat' ++ rest)) with (String c pat' ++ rest).
  rewrite starts_app_r by apply starts_refl. cbn [String.eqb negb andb].
  rewrite str_length_app, Nat.add_comm, Nat.add_sub, substring_skip, substring_whole.
  reflexivity.
Qed.

(** X15: when the provider's repository name is a plain path segment and
    its extension is ['.'] followed by a non-empty suffix, a listed file
    [x ++ extension ++ y ++ extension], where [x] and [y] hold no ['.'] and
    no ['/'] and are not both empty, loses both copies of the extension:
    [download_all] fetches the raw URL of the other file
    [x ++ y ++ extension], not of the listed one, and writes it to
    [repo_dir/x ++ y ++ extension]. *)
Theorem download_name_double_extension (cache : string) (p : Provider) (e x y : string) :
  repo_name p <> EmptyString -> no_char "/" (repo_name p) = true ->
  extension p = String "." e -> e <> EmptyString ->
  no_char "." x = true -> no_char "." y = true ->
  no_char "/" x = true -> no_char "/" y = true -> x ++ y <> EmptyString ->
  let f := x ++ extension p ++ y ++ extension p in
  remove_all (extension p) f = x ++ y
  /\ individual_url p (remove_all (extension p) f) = raw_url p (x ++ y ++ extension p)
  /\ raw_url p (x ++ y ++ extension p) <> raw_url p f
  /\ individual_path cache p (remove_all (extension p) f)
     = repo_dir cache p ++ "/" ++ x ++ y ++ extension p.
Proof.
  intros Hr1 Hr2 He Hne Hx Hy Hx' Hy' Hxy. cbv zeta.
  assert (Hr : remove_all (extension p) (x ++ extension p ++ y ++ extension p) = x ++ y).
  { unfold remove_all. rewrite He.
    rewrite remove_all_aux_dotless_prefix by (exact Hx || lia).
    rewrite !str_length_app. cbn [String.length].
    replace (String.length x + (S (String.length e) + (String.length y
               + S (String.length e))) - String.length x)%nat
      with (S (String.length e + (String.length y + S (String.length e))))%nat by lia.
    rewrite remove_all_aux_pattern by discriminate.
    rewrite remove_all_aux_dotless_prefix
      by (exact Hy || (rewrite str_length_app; cbn [String.length]; lia)).
    replace (String.length e + (String.length y + S (String.length e))
             - String.length y)%nat
      with (S (String.length e + String.length e))%nat by lia.
    rewrite <- (str_app_nil_r (String "." e)) at 2.
    rewrite remove_all_aux_pattern by discriminate.
    rewrite remove_all_aux_empty, str_app_nil_r. reflexivity. }
  rewrite Hr. split; [reflexivity |]. split; [rewrite individual_url_raw, str_app_assoc; reflexivity |].
  split.
  - unfold raw_url. intros H. apply (f_equal String.length) in H.
    rewrite !str_length_app in H. rewrite He in H. cbn [String.length] in H. lia.
  - rewrite (individual_path_dotless cache p e (x ++ y))
      by (assumption || (rewrite no_char_app; apply andb_true_intro; split; assumption)).
    rewrite str_app_assoc. reflexivity.
Qed.

Lemma download_name_double_extension_witness :
  repo_name provider_gogh <> EmptyString /\ no_char "/" (repo_name provider_gogh) = true
  /\ extension provider_gogh = String "." "sh" /\ "sh" <> EmptyString
  /\ no_char "." "foo" = true /\ no_char "." "-dark" = true
  /\ no_char "/" "foo" = true /\ no_char "/" "-dark" = true /\ "foo" ++ "-dark" <> EmptyString
  /\ (let f := "foo" ++ extension provider_gogh ++ "-dark" ++ extension provider_gogh in
      remove_all (extension provider_gogh) f = "foo" ++ "-dark"
      /\ individual_url provider_gogh (remove_all (extension provider_gogh) f)
         = raw_url provider_gogh ("foo" ++ "-dark" ++ extension provider_gogh)
      /\ raw_url provider_gogh ("foo" ++ "-dark" ++ extension provider_gogh)
         <> raw_url provider_gogh f
      /\ individual_path "/c" provider_gogh (remove_all (extension provider_gogh) f)
         = repo_dir "/c" provider_gogh ++ "/" ++ "foo" ++ "-dark" ++ extension provider_gogh).
Proof.
  split; [discriminate |]. split; [reflexivity |]. split; [reflexivity |].
  split; [discriminate |]. split; [reflexivity |]. split; [reflexivity |].
  split; [reflexivity |]. split; [reflexivity |]. split; [discriminate |].
  apply (download_name_double_extension "/c" provider_gogh "sh" "foo" "-dark");
    solve [reflexivity | discriminate].
Defined.

(** ** A listed file named exactly as the extension *)

(** X16: when the provider's repository name is a non-empty path segment
    without ['.'] and its extension is ['.'] followed by a non-empty
    suffix, a listed file named exactly as the extension (e.g. [.sh]) passes
    the filter of [download_all] and gets the empty name: it is fetched from
    the raw URL of that file, but written to [repo_dir ++ extension] (e.g.
    [.../Gogh-Co/Gogh.sh]), beside the repository directory instead of in
    it, since pushing the empty name only adds a ['/'] that
    [set_extension] cuts off. *)
Theorem download_name_extension_only (cache : string) (p : Provider) (e : string) :
  repo_name p <> EmptyString -> no_char "/" (repo_name p) = true ->
  no_char "." (repo_name p) = true ->
  extension p = String "." e -> e <> EmptyString ->
  qualifies p (extension p) = true
  /\ remove_all (extension p) (extension p) = EmptyString
  /\ individual_url p (remove_all (extension p) (extension p)) = raw_url p (extension p)
  /\ individual_path cache p (remove_all (extension p) (extension p))
     = repo_dir cache p ++ extension p.
Proof.
  intros Hr1 Hr2 Hr3 He Hne.
  assert (Hr : remove_all (extension p) (extension p) = EmptyString).
  { unfold remove_all. rewrite He. cbn [String.length].
    rewrite <- (str_app_nil_r (String "." e)) at 2.
    rewrite remove_all_aux_pattern by discriminate. apply remove_all_aux_empty. }
  split; [| split; [exact Hr |]].
  { unfold qualifies. rewrite He. apply (ends_with_app EmptyString). }
  rewrite Hr. split; [reflexivity |].
  unfold individual_path. rewrite (extension_slice p e He).
  destruct (repo_dir_last_char cache p Hr1 Hr2) as [c [Hc Hc']].
  rewrite (path_push_sep _ _ c Hc Hc') by reflexivity.
  destruct (repo_dir_shape cache p Hr1 Hr2) as [a [Ha Hrd]]. rewrite Hrd.
  destruct (dotless_segment (repo_name p) Hr1 Hr3) as [D2 D3].
  assert (Hl : last_component ((a ++ repo_name p) ++ "/" ++ EmptyString) 0 0 EmptyString None
               = Some (String.length a, repo_name p)).
  { cbn [String.append]. rewrite last_component_sep.
    cbn [last_component pick String.eqb orb].
    exact (proj1 (file_name_segment a (repo_name p) Ha Hr1 D2 D3 Hr2)). }
  unfold set_extension, file_name. rewrite Hl.
  destruct (String.eqb_spec (repo_name p) ".."); [contradiction |].
  rewrite file_stem_dotless by exact Hr3.
  destruct (String.eqb_spec e EmptyString); [contradiction |].
  rewrite <- str_length_app, substring_prefix, He. reflexivity.
Qed.

Lemma download_name_extension_only_witness :
  repo_name provider_gogh <> EmptyString /\ no_char "/" (repo_name provider_gogh) = true
  /\ no_char "." (repo_name provider_gogh) = true
  /\ extension provider_gogh = String "." "sh" /\ "sh" <> EmptyString
  /\ (qualifies provider_gogh (extension provider_gogh) = true
      /\ remove_all (extension provider_gogh) (extension provider_gogh) = EmptyString
      /\ individual_url provider_gogh
           (remove_all (extension provider_gogh) (extension provider_gogh))
         = raw_url provider_gogh (extension provider_gogh)
      /\ individual_path "/home/u/.cache" provider_gogh
           (remove_all (extension provider_gogh) (extension provider_gogh))
         = repo_dir "/home/u/.cache" provider_gogh ++ extension provider_gogh).
Proof.
  split; [discriminate |]. split; [reflexivity |]. split; [reflexivity |].
  split; [reflexivity |]. split; [discriminate |].
  apply (download_name_extension_only "/home/u/.cache" provider_gogh "sh");
    solve [reflexivity | discriminate].
Defined.
